(** * migrate: a sequential schema-migration engine

    A shallow embedding of the Go package [migrate] (the engine, the
    SQL handler and the Go-procedure handler) and the proofs of its
    behavioural properties.

    The engine talks to three collaborators that are not part of the
    package: the filesystem ([os], [bufio], [path]), the SQL driver
    ([database/sql]) and the user's procedures.  The filesystem is an
    interface ([Platform]); the database is a small concrete model that
    keeps the rows of the schema table; procedures are state
    transformers on the world.  Go's [int] is an integer here: stored
    versions and positions in a list stay far from its bounds. *)

From Stdlib Require Import ZArith Ascii String List Lia.
From stdpp Require Import base gmap strings list.

Local Open Scope string_scope.
Local Open Scope list_scope.
Local Open Scope Z_scope.

Set Default Proof Using "Type".
Set Warnings "-clear-no-such-hyp".

(** ** Errors

    The package builds its errors with [fmt.Errorf] from a fixed set of
    format strings; an error is kept here as the format together with
    its argument.  [ErrNotExist] is an [*os.PathError] for which
    [errors.Is(err, os.ErrNotExist)] holds, [ErrNoRows] is
    [sql.ErrNoRows], and [ErrExternal] is every other error that comes
    from outside the package (the operating system, the driver, a user
    procedure); its text is what [err.Error()] returns. *)
Inductive error : Type :=
| ErrParamIsNotFunc
| errSchemaRecordIsEmpty (index : Z)
| errSchemaItemIsDuplicate (line : string)
| errFuncNameIsDuplicate (name : string)
| errFileNameIsDuplicate (name : string)
| errFileIsSameAsFunc (name : string)
| errFileNameNotExist (name : string)
| errFuncNameNotExist (name : string)
| errFindDirtyIndex (version : Z)
| errSchemaVersionLargeRecord (version : Z)
| errFileTypeNotSupported (item : string)
| errFuncFormatNotCorrect (name : string)
| ErrQueryWithIndex (cause : string) (index : Z)
| ErrNotExist (path : string)
| ErrNoRows
| ErrExternal (msg : string).

Definition isNotExist (e : error) : bool :=
  match e with ErrNotExist _ => true | _ => false end.

Definition isNoRows (e : error) : bool :=
  match e with ErrNoRows => true | _ => false end.

(** What a Go function returning [(T, error)] gives back, or a run-time
    panic (an index out of range). *)
Inductive result (A : Type) : Type :=
| Ok (a : A)
| Err (e : error)
| Panic.
Arguments Ok {A} a.
Arguments Err {A} e.
Arguments Panic {A}.

(** ** Standard-library text functions *)

Definition sqlFileExt : string := ".sql".
Definition funcExt : string := "".

Definition newline : ascii := "010"%char.
Definition carriage : ascii := "013"%char.

Fixpoint snoc (s : string) (c : ascii) : string :=
  match s with
  | EmptyString => String c EmptyString
  | String a s' => String a (snoc s' c)
  end.

(** [bufio.dropCR]: one trailing carriage return is removed. *)
Fixpoint dropCR (s : string) : string :=
  match s with
  | EmptyString => EmptyString
  | String c EmptyString => if Ascii.eqb c carriage then EmptyString else s
  | String c s' => String c (dropCR s')
  end.

(** [bufio.MaxScanTokenSize], the size to which the buffer of a
    scanner made by [bufio.NewScanner] can grow. *)
Definition MaxScanTokenSize : Z := 65536.

(** A [bufio.Scanner] with the split function [bufio.ScanLines] run
    until [scanner.Scan] returns false: the tokens that the successive
    calls make available through [scanner.Text].  [cur] is the line
    read so far, the bytes of the buffer from the start of the token.
    A last line without its newline is a token when it is not empty.
    When the buffer holds [MaxScanTokenSize] bytes without a newline
    it cannot grow: [Scan] returns false with the error [ErrTooLong],
    which is kept in [scanner.Err], and the tokens end there. *)
Fixpoint scanLinesFrom (cur : string) (data : string) : list string :=
  match data with
  | EmptyString =>
      match cur with
      | EmptyString => []
      | _ => [dropCR cur]
      end
  | String c rest =>
      if Ascii.eqb c newline then dropCR cur :: scanLinesFrom EmptyString rest
      else if MaxScanTokenSize <=? Z.of_nat (String.length cur) + 1 then []
      else scanLinesFrom (snoc cur c) rest
  end.

Definition ScanLines (data : string) : list string :=
  scanLinesFrom EmptyString data.

Fixpoint hasSlash (s : string) : bool :=
  match s with
  | EmptyString => false
  | String c s' => Ascii.eqb c "/"%char || hasSlash s'
  end.

(** [path.Ext]: the suffix that starts at the last dot of the last
    slash-separated element, empty when that element has no dot. *)
Fixpoint Ext (path : string) : string :=
  match path with
  | EmptyString => EmptyString
  | String c rest =>
      match Ext rest with
      | EmptyString =>
          if Ascii.eqb c "."%char && negb (hasSlash rest) then path
          else EmptyString
      | ext => ext
      end
  end.

(** [fmt.Sprintf(fileJoinFormat, dir, name)] *)
Definition fileJoin (dir name : string) : string := dir +:+ "/" +:+ name.

(** ** The item list

    [getSchemaItems], from the scanner onwards.  The scanner is the list
    of tokens it still has to deliver; [index], [itemMap] and
    [schemaItems] are the loop's variables. *)
Fixpoint scanItems (tokens : list string) (index : Z)
    (itemMap : gset string) (schemaItems : list string) : result (list string) :=
  match tokens with
  | [] => Ok schemaItems
  | line :: rest =>
      let index := index + 1 in
      if decide (line = "") then
        match rest with
        | [] => Ok schemaItems
        | _ :: _ => Err (errSchemaRecordIsEmpty index)
        end
      else if decide (line ∈ itemMap) then
        Err (errSchemaItemIsDuplicate line)
      else scanItems rest index ({[line]} ∪ itemMap) (schemaItems ++ [line])
  end.

Definition parseItems (tokens : list string) : result (list string) :=
  scanItems tokens 0 ∅ [].

(** A string without a newline, and a line that the scanner delivers
    whatever stands around it: without a newline and shorter than
    [MaxScanTokenSize]. *)
Fixpoint noNewline (l : string) : bool :=
  match l with
  | EmptyString => true
  | String c l' => negb (Ascii.eqb c newline) && noNewline l'
  end.

Definition shortLine (l : string) : Prop :=
  noNewline l = true ∧ Z.of_nat (String.length l) < MaxScanTokenSize.

(** The identifier [x] stands on two lines of the list. *)
Definition repeated (tokens : list string) (x : string) : Prop :=
  x ≠ "" ∧ ∃ i j : nat, (i < j)%nat ∧ tokens !! i = Some x ∧ tokens !! j = Some x.

(** ** The database

    The schema table holds rows [{version, dirty}]; the engine expects
    one.  [table] is [None] until the table exists.  [applied] is the
    business effect of the SQL steps: the statements committed so far,
    oldest first.  [script] stands for everything that makes a driver
    call fail (a lost connection, a statement the server rejects): the
    outcome of the next calls in order, [None] for success and
    [Some msg] for a failure with that message; calls beyond the script
    succeed. *)
Record schema : Type := mkSchema { version : Z; dirty : bool }.

Record DB : Type := mkDB {
  table : option (list schema);
  applied : list string;
  script : list (option string)
}.

Definition withTable (t : option (list schema)) (d : DB) : DB :=
  mkDB t (applied d) (script d).
Definition withApplied (a : list string) (d : DB) : DB :=
  mkDB (table d) a (script d).
Definition withScript (sc : list (option string)) (d : DB) : DB :=
  mkDB (table d) (applied d) sc.

(** One call of the driver: the next outcome of the script. *)
Definition driver (d : DB) : option string * DB :=
  match script d with
  | [] => (None, d)
  | o :: sc => (o, withScript sc d)
  end.

Definition noSuchTable : error := ErrExternal "table does not exist".

(** [db.Exec] of [createSchemaTableFormat]: CREATE TABLE IF NOT EXISTS. *)
Definition execCreateSchemaTable (d : DB) : option error * DB :=
  let (o, d) := driver d in
  match o with
  | Some msg => (Some (ErrExternal msg), d)
  | None =>
      (None, match table d with None => withTable (Some []) d | Some _ => d end)
  end.

(** [db.QueryRow] of [querySchemaRecordFormat] and [Scan]: the first row. *)
Definition querySchemaRecord (d : DB) : result schema * DB :=
  let (o, d) := driver d in
  match o with
  | Some msg => (Err (ErrExternal msg), d)
  | None =>
      match table d with
      | None => (Err noSuchTable, d)
      | Some [] => (Err ErrNoRows, d)
      | Some (r :: _) => (Ok r, d)
      end
  end.

(** [db.Exec] of [insertDefaultSchema]: a new row [(0, 0)]. *)
Definition execInsertDefaultSchema (d : DB) : option error * DB :=
  let (o, d) := driver d in
  match o with
  | Some msg => (Some (ErrExternal msg), d)
  | None =>
      match table d with
      | None => (Some noSuchTable, d)
      | Some rows => (None, withTable (Some (rows ++ [mkSchema 0 false])) d)
      end
  end.

(** [db.Exec] of an UPDATE without WHERE: every row is rewritten. *)
Definition execUpdate (f : schema -> schema) (d : DB) : option error * DB :=
  let (o, d) := driver d in
  match o with
  | Some msg => (Some (ErrExternal msg), d)
  | None =>
      match table d with
      | None => (Some noSuchTable, d)
      | Some rows => (None, withTable (Some (map f rows)) d)
      end
  end.

(** [updateSchemaQuery]: SET version = ? *)
Definition execUpdateSchema (v : Z) : DB -> option error * DB :=
  execUpdate (fun r => mkSchema v (dirty r)).

(** [updateDirtyQuery]: SET version = ?, dirty = ? *)
Definition execUpdateDirty (v : Z) (b : bool) : DB -> option error * DB :=
  execUpdate (fun _ => mkSchema v b).

(** The row that a read of the store returns. *)
Definition stored (d : DB) : option schema :=
  match table d with
  | Some (r :: _) => Some r
  | _ => None
  end.

(** ** The filesystem

    What the package needs from [os], [io] and [path], as an interface
    over an abstract filesystem state.  Opening and listing observe the
    state; [os.MkdirAll] and [os.Create] change it.  A [File] is what
    reading the handle yields: the bytes, then end of file or a read
    error. *)
Record File : Type := mkFile { f_data : string; f_err : option error }.

Record DirEntry : Type := mkDirEntry { Name : string; IsDir : bool }.

Class Platform (FS : Type) : Type := {
  os_Open : string -> FS -> result File;
  os_ReadDir : string -> FS -> result (list DirEntry);
  os_MkdirAll : string -> FS -> option error * FS;
  os_Create : string -> FS -> option error * FS;
  path_Dir : string -> string
}.

(** The handle that [os.Create] returns: a file with nothing in it. *)
Definition createdFile : File := mkFile "" None.

(** [io.ReadAll] *)
Definition io_ReadAll (f : File) : result string :=
  match f_err f with
  | Some e => Err e
  | None => Ok (f_data f)
  end.

Declare Scope go_scope.
Delimit Scope go_scope with go.

Section Engine.

Context {FS : Type} `{Platform FS}.

(** ** The world outside the engine *)
Record World : Type := mkWorld { fs : FS; db : DB }.

Definition withDB (d : DB) (w : World) : World := mkWorld (fs w) d.
Definition withFS (f : FS) (w : World) : World := mkWorld f (db w).

(** ** Handlers *)

(** Modelled from the spec: the declaration of the interface [Handler]
    is not among the sources; the spec gives it as the capability set
    [{GetIndex() int, Exec(ctx) error}].  An interface value is the
    method table bound to its receiver. *)
Record Handler : Type := mkHandler {
  GetIndex : Z;
  Exec : World -> option error * World
}.

Record sqlHandler : Type := mkSqlHandler { sql_index : Z; sql_query : string }.

Definition sqlHandler_GetIndex (s : sqlHandler) : Z := sql_index s.

(** [sqlHandler.Exec].  The three driver calls are [BeginTx], [tx.Exec]
    and then [tx.Rollback] or [tx.Commit]; the results of the last two
    are dropped.  A commit that succeeds adds the statement to
    [applied]. *)
Definition sqlHandler_Exec (s : sqlHandler) (w : World) : option error * World :=
  if decide (sql_query s = "") then (None, w)
  else
    let (err, d) := driver (db w) in
    match err with
    | Some msg => (Some (ErrExternal msg), withDB d w)
    | None =>
        let (err, d) := driver d in
        match err with
        | Some msg =>
            let (_, d) := driver d in
            (Some (ErrQueryWithIndex msg (sql_index s)), withDB d w)
        | None =>
            let (cerr, d) := driver d in
            let d := match cerr with
                     | None => withApplied (applied d ++ [sql_query s]) d
                     | Some _ => d
                     end in
            (None, withDB d w)
        end
    end.

Definition newSQLHandler (index : Z) (query : string) : Handler :=
  let s := mkSqlHandler index query in
  mkHandler (sqlHandler_GetIndex s) (sqlHandler_Exec s).

(** What [reflect] tells about a method value: its kind, the types of
    its parameters and results, and what calling it does.  A result of
    type [error] is [None] for nil. *)
Inductive goKind : Type := Func | OtherKind.
Inductive goType : Type := ContextType | ErrorType | OtherType (name : string).

#[local] Instance goKind_eq_dec : EqDecision goKind.
Proof. solve_decision. Defined.
#[local] Instance goType_eq_dec : EqDecision goType.
Proof. solve_decision. Defined.

Record reflectValue : Type := mkValue {
  Kind : goKind;
  TypeIn : list goType;
  TypeOut : list goType;
  Call : World -> list (option error) * World
}.

Record method : Type := mkMethod { mt_name : string; mt_value : reflectValue }.

Record GoHandler : Type := mkGoHandler { go_index : Z; go_function : reflectValue }.

Definition GoHandler_GetIndex (g : GoHandler) : Z := go_index g.

(** [GoHandler.Exec] *)
Definition GoHandler_Exec (g : GoHandler) (w : World) : option error * World :=
  let (values, w) := Call (go_function g) w in
  match values with
  | [] => (None, w)
  | None :: _ => (None, w)
  | Some err :: _ => (Some err, w)
  end.

Definition newGoHandler (index : Z) (function : reflectValue) : Handler :=
  let g := mkGoHandler index function in
  mkHandler (GoHandler_GetIndex g) (GoHandler_Exec g).

(** [checkMethodFormat] *)
Definition checkMethodFormat (mh : method) : option error :=
  let v := mt_value mh in
  if decide (Kind v ≠ Func) then Some ErrParamIsNotFunc
  else if decide (length (TypeIn v) ≠ 1%nat ∨ length (TypeOut v) ≠ 1%nat) then
    Some (errFuncFormatNotCorrect (mt_name mh))
  else
    let paramInType := TypeIn v !! 0%nat in
    let paramOutType := TypeOut v !! 0%nat in
    if decide (paramInType ≠ Some ContextType ∨ paramOutType ≠ Some ErrorType) then
      Some (errFuncFormatNotCorrect (mt_name mh))
    else None.

(** ** The engine *)

(** An object given to [ApplyObjects], as [reflect] shows it: the nil
    interface, for which [reflect.TypeOf] returns nil, or a value with
    its exported methods in the order of [Type.Method(i)]. *)
Inductive Object : Type :=
| NilObject
| Obj (methods : list method).

(** The struct [migrate].  Its field [db] is the database of the
    world, and its [mutex] makes the three methods run one at a time,
    which state passing does by construction.  [schemaTable] names the
    one table that the model of the database keeps. *)
Record migrate : Type := mkMigrate {
  schemaDir : string;
  schemaFile : string;
  schemaTable : string;
  applyObjects : list Object;
  handlers : list Handler
}.

Definition withHandlers (hs : list Handler) (m : migrate) : migrate :=
  mkMigrate (schemaDir m) (schemaFile m) (schemaTable m) (applyObjects m) hs.
Definition withApplyObjects (os : list Object) (m : migrate) : migrate :=
  mkMigrate (schemaDir m) (schemaFile m) (schemaTable m) os (handlers m).

Definition defaultSchemaTableName : string := "schema_migrations".
Definition defaultSchemaDir : string := "./migrations".
Definition defaultSchemaFile : string := "migrate.txt".

Definition MigrateOption : Type := migrate -> migrate.

Definition WithSchemaTable (tableName : string) : MigrateOption :=
  fun m => mkMigrate (schemaDir m) (schemaFile m) tableName (applyObjects m) (handlers m).
Definition WithSchemaDir (dir : string) : MigrateOption :=
  fun m => mkMigrate dir (schemaFile m) (schemaTable m) (applyObjects m) (handlers m).
Definition WithSchemaFile (file : string) : MigrateOption :=
  fun m => mkMigrate (schemaDir m) file (schemaTable m) (applyObjects m) (handlers m).

Definition NewMigrate (options : list MigrateOption) : migrate :=
  fold_left (fun m option => option m) options
    (mkMigrate defaultSchemaDir defaultSchemaFile defaultSchemaTableName [] []).

(** The calls the engine makes to the state store and to its handlers.
    The engine does not keep this list: [trace] is ghost state, what a
    recording store and recording handlers would have seen, in order.
    The statements about which steps ran, and when, are about it. *)
Inductive Event : Type :=
| EvCreateTable
| EvQueryRecord
| EvInsertDefault
| EvUpdateVersion (v : Z)
| EvUpdateDirty (v : Z)
| EvExec (index : Z).

Record State : Type := mkState {
  eng : migrate;
  world : World;
  trace : list Event
}.

Definition withEng (m : migrate) (s : State) : State := mkState m (world s) (trace s).
Definition withWorld (w : World) (s : State) : State := mkState (eng s) w (trace s).
Definition withTrace (t : list Event) (s : State) : State := mkState (eng s) (world s) t.

(** Engine code: state passing with Go's early return on error. *)
Definition M (A : Type) : Type := State -> result A * State.

Definition ret {A} (a : A) : M A := fun s => (Ok a, s).
Definition fail {A} (e : error) : M A := fun s => (Err e, s).
Definition panic {A} : M A := fun s => (Panic, s).
Definition bind {A B} (c : M A) (k : A -> M B) : M B :=
  fun s =>
    match c s with
    | (Ok a, s') => k a s'
    | (Err e, s') => (Err e, s')
    | (Panic, s') => (Panic, s')
    end.

Notation "x <- c ;; k" := (bind c (fun x => k))
  (at level 100, c at next level, right associativity) : go_scope.
Notation "c ;; k" := (bind c (fun _ => k))
  (at level 100, right associativity) : go_scope.
Local Open Scope go_scope.

Definition liftResult {A} (r : result A) : M A := fun s => (r, s).

(** [if err != nil { return err }] *)
Definition check (err : option error) : M unit :=
  match err with
  | Some e => fail e
  | None => ret tt
  end.

Definition getEng : M migrate := fun s => (Ok (eng s), s).
Definition getFS : M FS := fun s => (Ok (fs (world s)), s).
(** A call that changes the filesystem. *)
Definition callFS (f : FS -> option error * FS) : M (option error) :=
  fun s => let (err, fs') := f (fs (world s)) in
           (Ok err, withWorld (withFS fs' (world s)) s).

(** A call of the engine to the store. *)
Definition callDB {A} (ev : Event) (f : DB -> A * DB) : M A :=
  fun s => let (a, d) := f (db (world s)) in
           (Ok a, withWorld (withDB d (world s)) (withTrace (trace s ++ [ev]) s)).

(** [handler.Exec(ctx)] *)
Definition callExec (handler : Handler) : M (option error) :=
  fun s => let (err, w) := Exec handler (world s) in
           (Ok err, withWorld w (withTrace (trace s ++ [EvExec (GetIndex handler)]) s)).

(** [AddHandlers] and [ApplyObjects] *)
Definition AddHandlers (hs : list Handler) : M unit :=
  fun s => (Ok tt, withEng (withHandlers (handlers (eng s) ++ hs) (eng s)) s).

Definition ApplyObjects (objects : list Object) : M unit :=
  fun s => (Ok tt, withEng (withApplyObjects (applyObjects (eng s) ++ objects) (eng s)) s).

(** [getSchemaItems] *)
Definition getSchemaItems : M (list string) :=
  m <- getEng ;;
  let schemaFileName := fileJoin (schemaDir m) (schemaFile m) in
  fsys <- getFS ;;
  schemaFile <-
    match os_Open schemaFileName fsys with
    | Ok file => ret file
    | Err err =>
        if isNotExist err then
          err <- callFS (os_MkdirAll (path_Dir schemaFileName)) ;;
          check err ;;
          err <- callFS (os_Create schemaFileName) ;;
          check err ;;
          ret createdFile
        else fail err
    | Panic => panic
    end ;;
  liftResult (parseItems (ScanLines (f_data schemaFile))).

(** [initSchemaTable] *)
Definition initSchemaTable : M (option error) :=
  callDB EvCreateTable execCreateSchemaTable.

(** [getSchemaRecord].  When the query finds no row and the insert
    succeeds, the function returns the untouched zero value of
    [schema] with a nil error. *)
Definition getSchemaRecord : M schema :=
  err <- initSchemaTable ;;
  check err ;;
  r <- callDB EvQueryRecord querySchemaRecord ;;
  match r with
  | Ok sche => ret sche
  | Err err =>
      if isNoRows err then
        err <- callDB EvInsertDefault execInsertDefaultSchema ;;
        check err ;;
        ret (mkSchema 0 false)
      else fail err
  | Panic => panic
  end.

(** [getMethods]: the inner loop over the methods of one object, then
    the loop over the objects.  [objValue.MethodByName(mt.Name)] is the
    value of the method of that name, [mt] itself.  For the nil
    interface [objType] is nil and [objType.NumMethod()] panics. *)
Fixpoint addMethods (object : list method) (methods : gmap string method)
    : result (gmap string method) :=
  match object with
  | [] => Ok methods
  | mt :: rest =>
      if decide (is_Some (methods !! mt_name mt)) then
        Err (errFuncNameIsDuplicate (mt_name mt))
      else
        addMethods rest (<[mt_name mt := mkMethod (mt_name mt) (mt_value mt)]> methods)
  end.

Fixpoint addObjects (objects : list Object) (methods : gmap string method)
    : result (gmap string method) :=
  match objects with
  | [] => Ok methods
  | NilObject :: _ => Panic
  | Obj object :: rest =>
      match addMethods object methods with
      | Ok methods => addObjects rest methods
      | r => r
      end
  end.

Definition getMethods : M (gmap string method) :=
  m <- getEng ;;
  liftResult (addObjects (applyObjects m) ∅).

(** [getFileNames] *)
Fixpoint addFileNames (entries : list DirEntry) (fileNameMap : gset string)
    : result (gset string) :=
  match entries with
  | [] => Ok fileNameMap
  | entry :: rest =>
      if IsDir entry then addFileNames rest fileNameMap
      else if decide (Name entry ∈ fileNameMap) then
        Err (errFileNameIsDuplicate (Name entry))
      else addFileNames rest ({[Name entry]} ∪ fileNameMap)
  end.

Definition getFileNames : M (gset string) :=
  m <- getEng ;;
  fsys <- getFS ;;
  match os_ReadDir (schemaDir m) fsys with
  | Ok entries => liftResult (addFileNames entries ∅)
  | Err err => fail err
  | Panic => panic
  end.

(** The loop of [Run] that refuses a file named like a method.  Go
    ranges over a map in an unspecified order; the model takes the
    order of [elements]. *)
Fixpoint checkSameAsFunc (fileNames : list string) (methodMap : gmap string method)
    : M unit :=
  match fileNames with
  | [] => ret tt
  | fileName :: rest =>
      if decide (is_Some (methodMap !! fileName)) then
        fail (errFileIsSameAsFunc fileName)
      else checkSameAsFunc rest methodMap
  end.

(** [getFileContent] *)
Definition getFileContent (fileName : string) : M string :=
  fsys <- getFS ;;
  file <- liftResult (os_Open fileName fsys) ;;
  liftResult (io_ReadAll file).

Definition appendHandler (h : Handler) : M unit :=
  fun s => (Ok tt, withEng (withHandlers (handlers (eng s) ++ [h]) (eng s)) s).

(** Step 5 of [Run]: the body of the loop for [items[i]], and the loop
    over the items from position [i] on. *)
Definition buildHandler (methodMap : gmap string method) (fileNameMap : gset string)
    (i : Z) (item : string) : M unit :=
  m <- getEng ;;
  let ext := Ext item in
  if decide (ext = sqlFileExt) then
    if decide (item ∈ fileNameMap) then
      sqlContent <- getFileContent (fileJoin (schemaDir m) item) ;;
      appendHandler (newSQLHandler (i + 1) sqlContent)
    else fail (errFileNameNotExist item)
  else if decide (ext = funcExt) then
    match methodMap !! item with
    | None => fail (errFuncNameNotExist item)
    | Some method =>
        check (checkMethodFormat method) ;;
        appendHandler (newGoHandler (i + 1) (mt_value method))
    end
  else fail (errFileTypeNotSupported item).

Fixpoint buildHandlers (methodMap : gmap string method) (fileNameMap : gset string)
    (i : Z) (items : list string) : M unit :=
  match items with
  | [] => ret tt
  | item :: rest =>
      buildHandler methodMap fileNameMap i item ;;
      buildHandlers methodMap fileNameMap (i + 1) rest
  end.

(** [run]: the loop over [m.handlers]. *)
Fixpoint runHandlers (hs : list Handler) : M unit :=
  match hs with
  | [] => ret tt
  | handler :: rest =>
      err <- callExec handler ;;
      match err with
      | Some err =>
          innerErr <- callDB (EvUpdateDirty (GetIndex handler))
                        (execUpdateDirty (GetIndex handler) true) ;;
          check innerErr ;;
          fail err
      | None =>
          err <- callDB (EvUpdateVersion (GetIndex handler))
                   (execUpdateSchema (GetIndex handler)) ;;
          check err ;;
          runHandlers rest
      end
  end.

Definition run : M unit :=
  m <- getEng ;;
  runHandlers (handlers m).

(** [Run].  With a negative stored version the loop of step 5 starts
    at a negative position and [items[i]] panics. *)
Definition Run : M unit :=
  items <- getSchemaItems ;;
  methodMap <- getMethods ;;
  fileNameMap <- getFileNames ;;
  checkSameAsFunc (elements fileNameMap) methodMap ;;
  record <- getSchemaRecord ;;
  if dirty record then fail (errFindDirtyIndex (version record))
  else if Z.of_nat (length items) <? version record then
    fail (errSchemaVersionLargeRecord (version record))
  else
    (if version record <? 0 then panic
     else buildHandlers methodMap fileNameMap (version record)
            (drop (Z.to_nat (version record)) items)) ;;
    run.

(** ** Vocabulary of the statements *)

Definition schemaFileName (m : migrate) : string :=
  fileJoin (schemaDir m) (schemaFile m).

(** Steps 1 to 3 of [Run] with the check that follows them. *)
Definition validating : M (list string * gmap string method * gset string) :=
  items <- getSchemaItems ;;
  methodMap <- getMethods ;;
  fileNameMap <- getFileNames ;;
  checkSameAsFunc (elements fileNameMap) methodMap ;;
  ret (items, methodMap, fileNameMap).

(** Steps 4 and 5 of [Run], after the record has been read. *)
Definition resolving (items : list string) (methodMap : gmap string method)
    (fileNameMap : gset string) (record : schema) : M unit :=
  if dirty record then fail (errFindDirtyIndex (version record))
  else if Z.of_nat (length items) <? version record then
    fail (errSchemaVersionLargeRecord (version record))
  else if version record <? 0 then panic
  else buildHandlers methodMap fileNameMap (version record)
         (drop (Z.to_nat (version record)) items).

(** [Run] up to the call of [run]. *)
Definition prepare : M unit :=
  v <- validating ;;
  record <- getSchemaRecord ;;
  resolving v.1.1 v.1.2 v.2 record.

(** The driver answers every call that is still to come. *)
Definition reliable (d : DB) : Prop := Forall (λ o, o = None) (script d).

(** A step that succeeds and leaves the schema table and the driver as
    it found them. *)
Definition quiet (h : Handler) : Prop :=
  ∀ w, reliable (db w) →
    ∃ w', Exec h w = (None, w') ∧ table (db w') = table (db w) ∧ reliable (db w').

Definition quietCall (v : reflectValue) : Prop :=
  ∀ w, reliable (db w) →
    ∃ w', Call v w = ([None], w') ∧ table (db w') = table (db w) ∧ reliable (db w').

(** An item for which step 5 of [Run] builds a handler: a [.sql] file
    that is listed and readable, or the name of a bound procedure of
    the right signature. *)
Definition resolvable (m : migrate) (fsys : FS) (methodMap : gmap string method)
    (fileNameMap : gset string) (item : string) : Prop :=
  (Ext item = sqlFileExt ∧ item ∈ fileNameMap ∧
   ∃ data, os_Open (fileJoin (schemaDir m) item) fsys = Ok (mkFile data None))
  ∨ (Ext item = funcExt ∧
     ∃ mt, methodMap !! item = Some mt ∧ checkMethodFormat mt = None).

(** The same, with a procedure that succeeds. *)
Definition succeeding (methodMap : gmap string method) (item : string) : Prop :=
  ∀ mt, methodMap !! item = Some mt → quietCall (mt_value mt).

(** The list file opens and the scanner delivers the lines [items],
    none of them blank and no two of them equal. *)
Definition wellFormedList (s : State) (items : list string) : Prop :=
  ∃ file, os_Open (schemaFileName (eng s)) (fs (world s)) = Ok file ∧
          ScanLines (f_data file) = items ∧ NoDup items ∧ "" ∉ items.

(** Steps 2 and 3 of [Run] succeed with the maps [methodMap] and
    [fileNameMap], and no file is named like a method. *)
Definition namesValidated (s : State) (methodMap : gmap string method)
    (fileNameMap : gset string) : Prop :=
  ∃ entries,
    addObjects (applyObjects (eng s)) ∅ = Ok methodMap ∧
    os_ReadDir (schemaDir (eng s)) (fs (world s)) = Ok entries ∧
    addFileNames entries ∅ = Ok fileNameMap ∧
    ∀ name, name ∈ fileNameMap → methodMap !! name = None.

(** A store on which no step has been recorded: no table, no row, or
    the row [{0, false}]. *)
Definition freshStore (d : DB) : Prop :=
  table d = None ∨ table d = Some [] ∨ table d = Some [mkSchema 0 false].

(** The calls of [getSchemaRecord] on a store that answers. *)
Definition recordReads (d : DB) : list Event :=
  [EvCreateTable; EvQueryRecord]
  ++ match stored d with None => [EvInsertDefault] | Some _ => [] end.

(** The state after [m.handlers = append(m.handlers, rs...)]. *)
Definition appended (rs : list Handler) (s : State) : State :=
  withEng (withHandlers (handlers (eng s) ++ rs) (eng s)) s.

(** The calls that read the record (and create what is missing); the
    other events are steps and their state updates. *)
Definition readEvent (ev : Event) : Prop :=
  ev = EvCreateTable ∨ ev = EvQueryRecord ∨ ev = EvInsertDefault.

(** The record and the rows that [getSchemaRecord] leaves behind on a
    store that answers: what it finds, or the default row. *)
Definition recordRead (d : DB) : schema :=
  match stored d with Some r => r | None => mkSchema 0 false end.

Definition rowsRead (d : DB) : list schema :=
  match table d with
  | Some (r :: rows) => r :: rows
  | _ => [mkSchema 0 false]
  end.

(** The calls of one successful step, and the ordinals [i+1 .. i+n]. *)
Definition stepEvents (h : Handler) : list Event :=
  [EvExec (GetIndex h); EvUpdateVersion (GetIndex h)].

Definition ordinalEvents (i : Z) : list Event :=
  [EvExec i; EvUpdateVersion i].

Fixpoint ordinalsFrom (i : Z) (n : nat) : list Z :=
  match n with
  | O => []
  | S n' => (i + 1) :: ordinalsFrom (i + 1) n'
  end.

(** The rows after the successful steps [hs]. *)
Definition rowsAfter (hs : list Handler) (rows : list schema) : list schema :=
  fold_left (fun rows h => map (fun r => mkSchema (GetIndex h) (dirty r)) rows) hs rows.

(** The methods of all registered objects, in the order in which
    [getMethods] meets them. *)
Definition objectMethods (object : Object) : list method :=
  match object with
  | NilObject => []
  | Obj methods => methods
  end.

Definition methodsOf (objects : list Object) : list method :=
  concat (map objectMethods objects).

(** The names of the entries of a listing that are not directories. *)
Definition fileNamesOf (entries : list DirEntry) : list string :=
  map Name (filter (λ entry, IsDir entry = false) entries).

(** The error with which step 5 of [Run] turns an item down before it
    opens any file: a [.sql] item that is not listed, a name without a
    bound procedure or with one of the wrong signature, an item of
    another suffix. *)
Definition refusal (methodMap : gmap string method) (fileNameMap : gset string)
    (item : string) : option error :=
  if decide (Ext item = sqlFileExt) then
    if decide (item ∈ fileNameMap) then None else Some (errFileNameNotExist item)
  else if decide (Ext item = funcExt) then
    match methodMap !! item with
    | None => Some (errFuncNameNotExist item)
    | Some mt => checkMethodFormat mt
    end
  else Some (errFileTypeNotSupported item).

(** The indices of the handlers executed in a trace, in order. *)
Fixpoint execsOf (evs : list Event) : list Z :=
  match evs with
  | [] => []
  | EvExec i :: evs' => i :: execsOf evs'
  | _ :: evs' => execsOf evs'
  end.

End Engine.


Notation "x <- c ;; k" := (bind c (fun x => k))
  (at level 100, c at next level, right associativity) : go_scope.
Notation "c ;; k" := (bind c (fun _ => k))
  (at level 100, right associativity) : go_scope.

Arguments World FS : clear implicits.
Arguments Handler FS : clear implicits.
Arguments State FS : clear implicits.
Arguments migrate FS : clear implicits.
Arguments method FS : clear implicits.
Arguments Object FS : clear implicits.
Arguments reflectValue FS : clear implicits.

(** ** An in-memory filesystem

    A small instance of [Platform] on which the engine can be run:
    files and directory listings by path, and a list of paths that the
    operating system refuses to touch. *)
Module MemFS.

Record t : Type := mk {
  files : list (string * string);
  dirs : list (string * list DirEntry);
  denied : list string
}.

Fixpoint assoc {A} (k : string) (l : list (string * A)) : option A :=
  match l with
  | [] => None
  | (k', v) :: l' => if String.eqb k k' then Some v else assoc k l'
  end.

Definition isDenied (p : string) (f : t) : bool :=
  existsb (String.eqb p) (denied f).

Definition permission : error := ErrExternal "permission denied".

Definition open (p : string) (f : t) : result File :=
  if isDenied p f then Err permission
  else match assoc p (files f) with
       | Some data => Ok (mkFile data None)
       | None => Err (ErrNotExist p)
       end.

Definition readDir (p : string) (f : t) : result (list DirEntry) :=
  if isDenied p f then Err permission
  else match assoc p (dirs f) with
       | Some entries => Ok entries
       | None => Err (ErrNotExist p)
       end.

Definition mkdirAll (p : string) (f : t) : option error * t :=
  if isDenied p f then (Some permission, f)
  else match assoc p (dirs f) with
       | Some _ => (None, f)
       | None => (None, mk (files f) ((p, []) :: dirs f) (denied f))
       end.

Definition create (p : string) (f : t) : option error * t :=
  if isDenied p f then (Some permission, f)
  else (None, mk ((p, "") :: files f) (dirs f) (denied f)).

(** The directory part of a path, up to the last slash, without the
    cleaning that [path.Dir] adds. *)
Fixpoint dir (p : string) : string :=
  match p with
  | EmptyString => EmptyString
  | String c rest =>
      if hasSlash rest then String c (dir rest) else EmptyString
  end.

#[global] Instance platform : Platform t := {
  os_Open := open;
  os_ReadDir := readDir;
  os_MkdirAll := mkdirAll;
  os_Create := create;
  path_Dir := dir
}.

End MemFS.

(** ** A migration directory to run the engine on

    The directory [./migrations] with two SQL files and a list file of
    the given lines, one registered object with the method [Seed], and
    a store with the given table and driver script. *)
Definition lines (ls : list string) : string :=
  fold_right (fun l acc => l +:+ String newline acc) "" ls.

Definition createSQL : string := "CREATE TABLE t (id int)".
Definition indexSQL : string := "CREATE INDEX i ON t (id)".

Definition demoFS (listFile : list string) : MemFS.t :=
  MemFS.mk [("./migrations/migrate.txt", lines listFile);
            ("./migrations/1_create.sql", createSQL);
            ("./migrations/2_index.sql", indexSQL)]
           [("./migrations", [mkDirEntry "1_create.sql" false;
                              mkDirEntry "2_index.sql" false;
                              mkDirEntry "migrate.txt" false])]
           [].

(** A procedure that returns nil, and one that returns an error. *)
Definition okProc : reflectValue MemFS.t :=
  mkValue Func [ContextType] [ErrorType] (fun w => ([None], w)).

Definition seedFailed : error := ErrExternal "seed failed".

Definition badProc : reflectValue MemFS.t :=
  mkValue Func [ContextType] [ErrorType] (fun w => ([Some seedFailed], w)).

Definition demoState (listFile : list string) (seed : reflectValue MemFS.t)
    (tbl : option (list schema)) (sc : list (option string)) : State MemFS.t :=
  mkState (withApplyObjects [Obj [mkMethod "Seed" seed]] (NewMigrate []))
          (mkWorld (demoFS listFile) (mkDB tbl [] sc)) [].

Definition demoItems : list string := ["1_create.sql"; "Seed"; "2_index.sql"].

Definition demoMethods (seed : reflectValue MemFS.t) : gmap string (method MemFS.t) :=
  <["Seed" := mkMethod "Seed" seed]> ∅.

Definition demoFileNames : gset string :=
  {["migrate.txt"]} ∪ ({["2_index.sql"]} ∪ ({["1_create.sql"]} ∪ ∅)).

(** The same directory without its list file, and with a list file that
    the operating system refuses to open. *)
Definition emptyFS : MemFS.t := MemFS.mk [] [] [].

Definition lockedFS : MemFS.t :=
  MemFS.mk [("./migrations/migrate.txt", lines demoItems)] []
           ["./migrations/migrate.txt"].

Definition bareState (f : MemFS.t) : State MemFS.t :=
  mkState (NewMigrate []) (mkWorld f (mkDB None [] [])) [].

(** A handler of the caller's own, with index 7. *)
Definition customHandler : Handler MemFS.t := mkHandler 7 (fun w => (None, w)).

Definition alreadyExists : string := "Table 't' already exists".

(** The demo directory after a run in which [Seed] failed. *)
Definition failedState : State MemFS.t :=
  (Run (demoState demoItems badProc None [])).2.

(** Two registered objects that both have a method [Run]. *)
Definition duplicateMethodState : State MemFS.t :=
  mkState (withApplyObjects [Obj [mkMethod "Run" okProc]; Obj [mkMethod "Run" okProc]]
             (NewMigrate []))
          (mkWorld (demoFS demoItems) (mkDB None [] [])) [].

(** A listing with a subdirectory, and a listing in which a file has
    the name of the method [Seed]. *)
Definition nestedEntries : list DirEntry :=
  [mkDirEntry "1_create.sql" false; mkDirEntry "old" true; mkDirEntry "migrate.txt" false].

Definition nestedFS : MemFS.t :=
  MemFS.mk [("./migrations/migrate.txt", lines demoItems)]
           [("./migrations", nestedEntries)] [].

Definition clashEntries : list DirEntry :=
  [mkDirEntry "1_create.sql" false; mkDirEntry "Seed" false; mkDirEntry "migrate.txt" false].

Definition clashState : State MemFS.t :=
  mkState (withApplyObjects [Obj [mkMethod "Seed" okProc]] (NewMigrate []))
          (mkWorld (MemFS.mk [("./migrations/migrate.txt", lines demoItems)]
                             [("./migrations", clashEntries)] [])
                   (mkDB None [] [])) [].

(** A list with an item of a suffix that the package does not know. *)
Definition mongoItems : list string := ["1_create.sql"; "2.mongodb"].

Definition mongoState : State MemFS.t := demoState mongoItems okProc None [].

(** The demo directory with an SQL file that the operating system
    refuses to open. *)
Definition unreadableState : State MemFS.t :=
  mkState (withApplyObjects [Obj [mkMethod "Seed" okProc]] (NewMigrate []))
          (mkWorld (MemFS.mk (MemFS.files (demoFS demoItems))
                             (MemFS.dirs (demoFS demoItems))
                             ["./migrations/2_index.sql"])
                   (mkDB None [] [])) [].

Definition connectionLost : string := "connection lost".

(** A line of [MaxScanTokenSize] bytes, and a directory whose list
    file has that line between the line [Seed] and two more lines. *)
Fixpoint repeatChar (n : nat) (c : ascii) : string :=
  match n with
  | O => ""
  | S n' => String c (repeatChar n' c)
  end.

Definition longLine : string := repeatChar (Z.to_nat MaxScanTokenSize) "a".

Definition longLineAfter : string := String newline (lines [""; "2_index.sql"]).

Definition longLineState : State MemFS.t :=
  mkState (withApplyObjects [Obj [mkMethod "Seed" okProc]] (NewMigrate []))
          (mkWorld (MemFS.mk [("./migrations/migrate.txt",
                               lines ["Seed"] +:+ longLine +:+ longLineAfter)]
                             [("./migrations", [mkDirEntry "migrate.txt" false])] [])
                   (mkDB None [] [])) [].

(** The demo directory on a store that stops answering at the eighth
    call, with a [Seed] that fails, and on one that stops answering at
    the seventh call. *)
Definition lostAtDirty : State MemFS.t :=
  demoState demoItems badProc None (replicate 7 None ++ [Some connectionLost]).

Definition lostAtVersion : State MemFS.t :=
  demoState demoItems okProc None (replicate 6 None ++ [Some connectionLost]).

(** * Properties *)

(** ** The item list *)

Lemma scanItems_prefix (pre tl : list string) :
  ∀ (index : Z) (itemMap : gset string) (acc : list string),
    NoDup pre →
    "" ∉ pre →
    (∀ x, x ∈ pre → x ∉ itemMap) →
    scanItems (pre ++ tl) index itemMap acc
    = scanItems tl (index + Z.of_nat (length pre)) (list_to_set pre ∪ itemMap) (acc ++ pre).
Proof.
  induction pre as [|line pre IH]; intros index itemMap acc Hnd Hblank Hfresh.
  - cbn [app length list_to_set]. rewrite Z.add_0_r, app_nil_r.
    f_equal. set_solver.
  - apply NoDup_cons in Hnd as [Hline Hnd].
    apply not_elem_of_cons in Hblank as [Hne Hblank].
    cbn [app scanItems].
    destruct (decide (line = "")) as [->|_]; [done|].
    destruct (decide (line ∈ itemMap)) as [Hin|_].
    { exfalso. apply (Hfresh line); [left | done]. }
    rewrite IH; [|done|done|].
    + cbn [length list_to_set]. rewrite <- app_assoc. cbn [app].
      f_equal; [lia | set_solver].
    + intros x Hx. apply not_elem_of_union. split.
      * apply not_elem_of_singleton. intros ->. done.
      * apply Hfresh. by right.
Qed.

Lemma parseItems_ok (items : list string) :
  NoDup items → "" ∉ items → parseItems items = Ok items.
Proof.
  intros Hnd Hblank. unfold parseItems.
  rewrite <- (app_nil_r items) at 1.
  rewrite scanItems_prefix by (done || set_solver).
  reflexivity.
Qed.

Lemma parseItems_blank (pre : list string) (next : string) (rest : list string) :
  NoDup pre → "" ∉ pre →
  parseItems (pre ++ "" :: next :: rest)
  = Err (errSchemaRecordIsEmpty (Z.of_nat (length pre) + 1)).
Proof.
  intros Hnd Hblank. unfold parseItems.
  rewrite scanItems_prefix by (done || set_solver).
  cbn [scanItems]. destruct (decide ("" = "")); [|done].
  reflexivity.
Qed.

Lemma parseItems_duplicate (pre : list string) (x : string) (rest : list string) :
  NoDup pre → "" ∉ pre → x ∈ pre →
  parseItems (pre ++ x :: rest) = Err (errSchemaItemIsDuplicate x).
Proof.
  intros Hnd Hblank Hx. unfold parseItems.
  rewrite scanItems_prefix by (done || set_solver).
  cbn [scanItems].
  destruct (decide (x = "")) as [->|_]; [done|].
  destruct (decide (x ∈ list_to_set pre ∪ (∅ : gset string))) as [_|Hn]; [done|].
  exfalso. apply Hn. set_solver.
Qed.

(** Every list is free of blank and repeated lines, or has a first
    line that is blank or repeats an earlier one. *)
Lemma first_defect (tokens : list string) :
  (NoDup tokens ∧ "" ∉ tokens) ∨
  ∃ pre x rest, tokens = pre ++ x :: rest ∧ NoDup pre ∧ ("" ∉ pre) ∧ (x = "" ∨ x ∈ pre).
Proof.
  induction tokens as [|x l IH] using rev_ind.
  - left. split; [apply NoDup_nil_2 | apply not_elem_of_nil].
  - destruct IH as [[Hnd Hblank] | (pre & y & rest & -> & Hnd & Hblank & Hy)].
    + destruct (decide (x = "")) as [->|Hx].
      { right. exists l, "", []. done || auto. }
      destruct (decide (x ∈ l)) as [Hin|Hnin].
      { right. exists l, x, []. auto. }
      left. split.
      * apply NoDup_app. split; [done|]. split; [|apply NoDup_singleton].
        intros z Hz Hz'. apply list_elem_of_singleton in Hz' as ->. done.
      * intros Hin. apply elem_of_app in Hin as [Hin|Hin]; [done|].
        apply list_elem_of_singleton in Hin. done.
    + right. exists pre, y, (rest ++ [x]). rewrite <- app_assoc. done.
Qed.

Lemma repeated_first_defect (tokens : list string) (x : string) :
  repeated tokens x →
  ∃ pre y rest, tokens = pre ++ y :: rest ∧ NoDup pre ∧ ("" ∉ pre) ∧
                (y ∈ pre ∨ (y = "" ∧ rest ≠ [])).
Proof.
  intros (Hx & i & j & Hij & Hi & Hj).
  destruct (first_defect tokens) as [[Hnd _] | (pre & y & rest & -> & Hnd & Hblank & Hy)].
  - pose proof (NoDup_lookup _ _ _ _ Hnd Hi Hj). lia.
  - exists pre, y, rest. split; [done|]. split; [done|]. split; [done|].
    destruct Hy as [-> | Hy]; [|by left]. right. split; [done|].
    intros ->.
    apply lookup_lt_Some in Hj as Hlen. rewrite length_app in Hlen. cbn in Hlen.
    destruct (decide (j = length pre)) as [->|Hne].
    + rewrite list_lookup_middle in Hj by done. congruence.
    + rewrite lookup_app_l in Hi, Hj by lia.
      pose proof (NoDup_lookup _ _ _ _ Hnd Hi Hj). lia.
Qed.

Section Facts.

Context {FS : Type} `{Platform FS}.

Local Open Scope go_scope.

Implicit Types (s : State FS) (w : World FS) (h : Handler FS).

Lemma getSchemaItems_open s (file : File) :
  os_Open (schemaFileName (eng s)) (fs (world s)) = Ok file →
  getSchemaItems s = (parseItems (ScanLines (f_data file)), s).
Proof.
  intros Hopen. unfold getSchemaItems, bind, getEng, getFS, liftResult, ret.
  fold (schemaFileName (eng s)). rewrite Hopen. reflexivity.
Qed.

Lemma Run_items_error s (e : error) s' :
  getSchemaItems s = (Err e, s') → Run s = (Err e, s').
Proof.
  intros Hitems. unfold Run, bind at 1. rewrite Hitems. reflexivity.
Qed.

(** ** The phases of [Run] *)

Lemma Run_phases s : Run s = (prepare ;; run) s.
Proof.
  unfold Run, prepare, validating, resolving, bind, ret.
  destruct (getSchemaItems s) as [[items|e|] s1]; [|done|done].
  destruct (getMethods s1) as [[methodMap|e|] s2]; [|done|done].
  destruct (getFileNames s2) as [[fileNameMap|e|] s3]; [|done|done].
  destruct (checkSameAsFunc _ _ s3) as [[[]|e|] s4]; [|done|done].
  destruct (getSchemaRecord s4) as [[record|e|] s5]; [|done|done].
  cbn [fst snd].
  destruct (dirty record); [done|].
  destruct (Z.of_nat (length items) <? version record); [done|].
  destruct (version record <? 0); done.
Qed.

Lemma checkSameAsFunc_frame (names : list string) (methodMap : gmap string (method FS))
    s (r : result unit) s' :
  checkSameAsFunc names methodMap s = (r, s') → s' = s.
Proof.
  revert s r s'. induction names as [|fileName names IH]; intros s r s' Hc.
  - cbn in Hc. by inversion Hc.
  - cbn [checkSameAsFunc] in Hc.
    destruct (decide (is_Some (methodMap !! fileName))).
    + by inversion Hc.
    + by apply IH in Hc.
Qed.

Lemma getSchemaItems_frame s (r : result (list string)) s' :
  getSchemaItems s = (r, s') →
  eng s' = eng s ∧ db (world s') = db (world s) ∧ trace s' = trace s.
Proof.
  unfold getSchemaItems, bind, getEng, getFS, liftResult, ret, callFS, check, fail, panic.
  destruct (os_Open _ _) as [file|e|]; [by intros [= <- <-]| |by intros [= <- <-]].
  destruct (isNotExist e); [|by intros [= <- <-]].
  destruct (os_MkdirAll _ _) as [[e1|] fs1]; [by intros [= <- <-]|].
  cbn.
  destruct (os_Create _ fs1) as [[e2|] fs2]; by intros [= <- <-].
Qed.

Lemma getMethods_frame s (r : result (gmap string (method FS))) s' :
  getMethods s = (r, s') → s' = s ∧ r = addObjects (applyObjects (eng s)) ∅.
Proof. unfold getMethods, bind, getEng, liftResult. by intros [= <- <-]. Qed.

Lemma getFileNames_frame s (r : result (gset string)) s' :
  getFileNames s = (r, s') → s' = s.
Proof.
  unfold getFileNames, bind, getEng, getFS, liftResult, fail, panic.
  destruct (os_ReadDir _ _); by intros [= <- <-].
Qed.

Lemma validating_frame s r s' :
  validating s = (r, s') →
  eng s' = eng s ∧ db (world s') = db (world s) ∧ trace s' = trace s.
Proof.
  unfold validating, bind, ret.
  destruct (getSchemaItems s) as [ri s1] eqn:Hi.
  apply getSchemaItems_frame in Hi as (He & Hd & Ht).
  destruct ri as [items|e|]; [|by intros [= <- <-]|by intros [= <- <-]].
  destruct (getMethods s1) as [rm s2] eqn:Hm.
  apply getMethods_frame in Hm as [-> _].
  destruct rm as [methodMap|e|]; [|by intros [= <- <-]|by intros [= <- <-]].
  destruct (getFileNames s1) as [rf s3] eqn:Hf.
  apply getFileNames_frame in Hf as ->.
  destruct rf as [fileNameMap|e|]; [|by intros [= <- <-]|by intros [= <- <-]].
  destruct (checkSameAsFunc _ _ s1) as [rc s4] eqn:Hc.
  apply checkSameAsFunc_frame in Hc as ->.
  destruct rc as [[]|e|]; by intros [= <- <-].
Qed.

(** ** Reading the record *)

Lemma driver_frame (d : DB) :
  table (driver d).2 = table d ∧ applied (driver d).2 = applied d.
Proof. unfold driver. by destruct (script d). Qed.

Lemma driver_reliable (d : DB) :
  reliable d → ∃ d', driver d = (None, d') ∧ table d' = table d
                     ∧ applied d' = applied d ∧ reliable d'.
Proof.
  unfold reliable, driver. destruct d as [t a sc]; cbn.
  intros Hsc. destruct sc as [|o sc].
  - eexists. split; [done|]. cbn. done.
  - apply Forall_cons in Hsc as [-> Hsc]. eexists. split; [done|]. cbn. done.
Qed.

(** What [getSchemaRecord] returns, in terms of the store it finds. *)
Lemma getSchemaRecord_frame s (r : result schema) s' :
  getSchemaRecord s = (r, s') →
  eng s' = eng s ∧ fs (world s') = fs (world s) ∧
  ∃ reads, trace s' = trace s ++ reads ∧ Forall readEvent reads.
Proof.
  assert (Hreads : ∀ evs : list (Event),
             evs ⊆ [EvCreateTable; EvQueryRecord; EvInsertDefault] →
             Forall readEvent evs).
  { intros evs Hsub. apply Forall_forall. intros ev Hev. apply Hsub in Hev.
    unfold readEvent. set_solver. }
  unfold getSchemaRecord, initSchemaTable, bind, callDB, check, ret, fail, panic.
  destruct (execCreateSchemaTable _) as [[e|] d1].
  { intros [= <- <-]. cbn. repeat split; [].
    exists [EvCreateTable]. split; [done|]. apply Hreads. set_solver. }
  cbn [world db withWorld withDB withTrace trace eng].
  destruct (querySchemaRecord d1) as [[sche|e|] d2];
    [| destruct (isNoRows e);
       [cbn [world db withWorld withDB withTrace trace eng];
        destruct (execInsertDefaultSchema d2) as [[e'|] d3]|] |];
    intros [= <- <-]; cbn; (repeat split; []); rewrite <- ?app_assoc;
    eexists; (split; [reflexivity|]); apply Hreads; set_solver.
Qed.

Lemma getSchemaRecord_reliable s :
  reliable (db (world s)) →
  ∃ s', getSchemaRecord s = (Ok (recordRead (db (world s))), s') ∧
        eng s' = eng s ∧ fs (world s') = fs (world s) ∧
        trace s' = trace s ++ recordReads (db (world s)) ∧
        table (db (world s')) = Some (rowsRead (db (world s))) ∧
        applied (db (world s')) = applied (db (world s)) ∧
        reliable (db (world s')).
Proof.
  intros Hrel.
  unfold getSchemaRecord, initSchemaTable, bind, callDB, check, ret, fail, panic.
  unfold execCreateSchemaTable.
  destruct (driver_reliable _ Hrel) as (d1 & -> & Ht1 & Ha1 & Hrel1).
  cbn [world db withWorld withDB withTrace trace eng].
  unfold querySchemaRecord, execInsertDefaultSchema.
  unfold recordRead, recordReads, rowsRead, stored.
  destruct (table (db (world s))) as [[|r0 rows]|] eqn:Ht; rewrite Ht1.
  - destruct (driver_reliable d1 Hrel1) as (d2 & -> & Ht2 & Ha2 & Hrel2).
    rewrite Ht2, Ht1. cbn [isNoRows].
    cbn [world db withWorld withDB withTrace trace eng].
    destruct (driver_reliable d2 Hrel2) as (d3 & -> & Ht3 & Ha3 & Hrel3).
    rewrite Ht3, Ht2, Ht1.
    eexists. split; [reflexivity|]. cbn. rewrite <- !app_assoc.
    repeat split; try done. congruence.
  - destruct (driver_reliable d1 Hrel1) as (d2 & -> & Ht2 & Ha2 & Hrel2).
    rewrite Ht2, Ht1.
    eexists. split; [reflexivity|]. cbn. rewrite <- !app_assoc.
    repeat split; try done; congruence.
  - destruct (driver_reliable (withTable (Some []) d1)) as (d2 & -> & Ht2 & Ha2 & Hrel2);
      [done|].
    rewrite Ht2. cbn [withTable table isNoRows].
    cbn [world db withWorld withDB withTrace trace eng].
    destruct (driver_reliable d2 Hrel2) as (d3 & -> & Ht3 & Ha3 & Hrel3).
    rewrite Ht3, Ht2. cbn [withTable table].
    eexists. split; [reflexivity|]. cbn. rewrite <- !app_assoc.
    repeat split; try done. cbn in Ha2. congruence.
Qed.

(** When the read succeeds, the record returned is the row the store
    holds afterwards; a row that was there is returned as it is and the
    table is not written. *)
Lemma getSchemaRecord_ok s (r : schema) s' :
  getSchemaRecord s = (Ok r, s') →
  stored (db (world s')) = Some r ∧
  (∀ r0, stored (db (world s)) = Some r0 →
     r = r0 ∧ table (db (world s')) = table (db (world s)) ∧
     applied (db (world s')) = applied (db (world s)) ∧
     trace s' = trace s ++ [EvCreateTable; EvQueryRecord]) ∧
  (stored (db (world s)) = None → r = mkSchema 0 false).
Proof.
  unfold getSchemaRecord, initSchemaTable, bind, callDB, check, ret, fail, panic.
  unfold execCreateSchemaTable, querySchemaRecord, execInsertDefaultSchema, stored.
  destruct s as [m [f [t a sc]] tr]. cbn [world db eng trace fs].
  destruct t as [[|r0 rows]|];
    destruct sc as [|[msg1|] [|[msg2|] [|[msg3|] sc]]]; cbn;
    intros Heq; simplify_eq; cbn;
    (split; [done|]); (split; [|done]); intros r1 Hr1; simplify_eq;
    rewrite <- ?app_assoc; done.
Qed.

Lemma Run_after_read s v s1 (r : schema) s2 :
  validating s = (Ok v, s1) →
  getSchemaRecord s1 = (Ok r, s2) →
  Run s = (resolving v.1.1 v.1.2 v.2 r ;; run) s2.
Proof.
  intros Hv Hr. rewrite Run_phases. unfold prepare, bind.
  rewrite Hv, Hr. reflexivity.
Qed.

(** ** A dirty record, and a record ahead of the list *)

(** C4.  When the record that the run reads is dirty, [Run] returns the
    dirty-version error with the stored version.  The only calls of the
    run are the two that read the record: no handler is executed, and
    the rows of the table and the business data are what they were. *)
Theorem dirty_record_stops_run s v s1 (r : schema) s2 :
  validating s = (Ok v, s1) →
  getSchemaRecord s1 = (Ok r, s2) →
  dirty r = true →
  Run s = (Err (errFindDirtyIndex (version r)), s2) ∧
  trace s2 = trace s ++ [EvCreateTable; EvQueryRecord] ∧
  stored (db (world s)) = Some r ∧
  table (db (world s2)) = table (db (world s)) ∧
  applied (db (world s2)) = applied (db (world s)) ∧
  handlers (eng s2) = handlers (eng s).
Proof.
  intros Hv Hr Hdirty.
  rewrite (Run_after_read _ _ _ _ _ Hv Hr).
  unfold resolving, bind. rewrite Hdirty. split; [reflexivity|].
  apply validating_frame in Hv as (He1 & Hd1 & Ht1).
  pose proof (getSchemaRecord_frame _ _ _ Hr) as (He2 & _ & _).
  apply getSchemaRecord_ok in Hr as (_ & Hsome & Hnone).
  rewrite Hd1 in Hsome, Hnone.
  destruct (stored (db (world s))) as [r0|] eqn:Hst.
  - destruct (Hsome r0 eq_refl) as (-> & Htab & Happ & Htr).
    rewrite Htr, Htab, Happ, Ht1, He2, He1. done.
  - rewrite Hnone in Hdirty by done. discriminate.
Qed.

(** C5.  A stored version above the number of items makes [Run] fail,
    after the reads alone, with an error that carries the stored
    version (the dirty-version error when the record is dirty as well).
    A clean record whose version is the number of items leaves nothing
    to resolve: on an engine without handlers [Run] returns nil in the
    state in which the read left it. *)
Theorem version_against_item_count s (items : list string)
    (methodMap : gmap string (method FS)) (fileNameMap : gset string) s1 (r : schema) s2 :
  validating s = (Ok (items, methodMap, fileNameMap), s1) →
  getSchemaRecord s1 = (Ok r, s2) →
  (Z.of_nat (length items) < version r →
     Run s = (Err (if dirty r then errFindDirtyIndex (version r)
                   else errSchemaVersionLargeRecord (version r)), s2) ∧
     ∃ reads, trace s2 = trace s ++ reads ∧ Forall readEvent reads) ∧
  (version r = Z.of_nat (length items) → dirty r = false → handlers (eng s) = [] →
     Run s = (Ok tt, s2) ∧ handlers (eng s2) = [] ∧
     ∃ reads, trace s2 = trace s ++ reads ∧ Forall readEvent reads).
Proof.
  intros Hv Hr.
  rewrite (Run_after_read _ _ _ _ _ Hv Hr). cbn [fst snd].
  pose proof (validating_frame _ _ _ Hv) as (He1 & Hd1 & Ht1).
  pose proof (getSchemaRecord_frame _ _ _ Hr) as (He2 & _ & reads & Htr & Hreads).
  rewrite Ht1 in Htr.
  split.
  - intros Hlt. split; [|by exists reads].
    unfold resolving, bind, fail. destruct (dirty r); [done|].
    destruct (Z.ltb_spec (Z.of_nat (length items)) (version r)); [done|lia].
  - intros Heq Hclean Hfresh.
    assert (Hhs : handlers (eng s2) = []) by (rewrite He2, He1; done).
    split; [|split; [done|by exists reads]].
    unfold resolving, bind. rewrite Hclean.
    destruct (Z.ltb_spec (Z.of_nat (length items)) (version r)); [lia|].
    destruct (Z.ltb_spec (version r) 0); [lia|].
    rewrite Heq, Nat2Z.id, drop_all. cbn [buildHandlers]. unfold ret.
    unfold run, bind, getEng. rewrite Hhs. reflexivity.
Qed.

(** ** Executing the chain *)

Lemma runHandlers_app (hs1 hs2 : list (Handler FS)) s :
  runHandlers (hs1 ++ hs2) s = (runHandlers hs1 ;; runHandlers hs2) s.
Proof.
  revert s. induction hs1 as [|h hs1 IH]; intros s; [reflexivity|].
  cbn [app runHandlers]. unfold bind, callExec, callDB in *.
  destruct (Exec h (world s)) as [[e|] w1]; cbn.
  - destruct (execUpdateDirty _ _ _) as [[inner|] d]; reflexivity.
  - destruct (execUpdateSchema _ _) as [[e|] d]; cbn; [reflexivity|]. apply IH.
Qed.

(** One iteration of the loop of [run] on a handler that succeeds. *)
Lemma runHandlers_step_ok h (rest : list (Handler FS)) s w1 :
  Exec h (world s) = (None, w1) →
  runHandlers (h :: rest) s
  = match execUpdateSchema (GetIndex h) (db w1) with
    | (None, d) =>
        runHandlers rest (mkState (eng s) (withDB d w1) (trace s ++ stepEvents h))
    | (Some e, d) => (Err e, mkState (eng s) (withDB d w1) (trace s ++ stepEvents h))
    end.
Proof.
  intros Hexec. cbn [runHandlers]. unfold bind, callExec, callDB. rewrite Hexec.
  cbn [world db withWorld withTrace trace].
  destruct (execUpdateSchema _ _) as [[e|] d]; cbn; unfold stepEvents;
    rewrite <- app_assoc; reflexivity.
Qed.

(** One iteration on a handler that fails: the dirty update, and no
    further iteration. *)
Lemma runHandlers_step_fail h (rest : list (Handler FS)) s (e : error) w1 :
  Exec h (world s) = (Some e, w1) →
  runHandlers (h :: rest) s
  = let (innerErr, d) := execUpdateDirty (GetIndex h) true (db w1) in
    (Err (match innerErr with Some inner => inner | None => e end),
     mkState (eng s) (withDB d w1)
       (trace s ++ [EvExec (GetIndex h); EvUpdateDirty (GetIndex h)])).
Proof.
  intros Hexec. cbn [runHandlers]. unfold bind, callExec, callDB. rewrite Hexec.
  cbn [world db withWorld withTrace trace].
  destruct (execUpdateDirty _ _ _) as [[inner|] d]; cbn;
    rewrite <- app_assoc; reflexivity.
Qed.

(** A chain that ran to its end executed every handler once, in order,
    each execution followed by the update of the version. *)
Lemma runHandlers_ok_trace (hs : list (Handler FS)) s s' :
  runHandlers hs s = (Ok tt, s') →
  trace s' = trace s ++ flat_map stepEvents hs ∧ eng s' = eng s.
Proof.
  revert s. induction hs as [|h hs IH]; intros s Hrun.
  - cbn in Hrun. inversion Hrun. by rewrite app_nil_r.
  - destruct (Exec h (world s)) as [[e|] w1] eqn:Hexec.
    + rewrite (runHandlers_step_fail _ _ _ _ _ Hexec) in Hrun.
      destruct (execUpdateDirty _ _ _). discriminate.
    + rewrite (runHandlers_step_ok _ _ _ _ Hexec) in Hrun.
      destruct (execUpdateSchema _ _) as [[e|] d]; [discriminate|].
      apply IH in Hrun as [-> ->]. cbn [trace eng flat_map].
      by rewrite <- app_assoc.
Qed.

Lemma execUpdate_ok (f : schema → schema) (d d' : DB) :
  execUpdate f d = (None, d') →
  ∃ rows, table d = Some rows ∧ table d' = Some (map f rows) ∧ applied d' = applied d.
Proof.
  unfold execUpdate. pose proof (driver_frame d) as [Ht Ha].
  destruct (driver d) as [[msg|] d1]; [discriminate|]. cbn [snd] in Ht, Ha.
  destruct (table d1) as [rows|] eqn:Hrows; [|discriminate].
  intros [= <-]. exists rows. cbn. rewrite <- Ht, Ha. done.
Qed.

(** ** Steps that succeed *)

Lemma sql_quiet (index : Z) (query : string) :
  quiet (newSQLHandler index query : Handler FS).
Proof.
  intros w Hrel. cbn. unfold sqlHandler_Exec. cbn [sql_query sql_index].
  destruct (decide (query = "")); [by exists w|].
  destruct (driver_reliable _ Hrel) as (d1 & -> & Ht1 & _ & Hrel1).
  destruct (driver_reliable _ Hrel1) as (d2 & -> & Ht2 & _ & Hrel2).
  destruct (driver_reliable _ Hrel2) as (d3 & -> & Ht3 & _ & Hrel3).
  eexists. split; [reflexivity|]. cbn. split; [congruence|done].
Qed.

Lemma go_quiet (index : Z) (function : reflectValue FS) :
  quietCall function → quiet (newGoHandler index function).
Proof.
  intros Hcall w Hrel. destruct (Hcall w Hrel) as (w' & Hc & Ht & Hrel').
  exists w'. cbn. unfold GoHandler_Exec. cbn [go_function]. by rewrite Hc.
Qed.

Lemma execUpdate_reliable (f : schema → schema) (d : DB) (rows : list schema) :
  reliable d → table d = Some rows →
  ∃ d', execUpdate f d = (None, d') ∧ table d' = Some (map f rows) ∧ reliable d'.
Proof.
  intros Hrel Hrows. unfold execUpdate.
  destruct (driver_reliable _ Hrel) as (d1 & -> & Ht1 & _ & Hrel1).
  rewrite Ht1, Hrows. eexists. split; [reflexivity|]. done.
Qed.

Lemma runHandlers_quiet (hs : list (Handler FS)) :
  ∀ s (rows : list schema),
    Forall quiet hs → reliable (db (world s)) → table (db (world s)) = Some rows →
    ∃ s', runHandlers hs s = (Ok tt, s') ∧
          table (db (world s')) = Some (rowsAfter hs rows) ∧
          reliable (db (world s')).
Proof.
  induction hs as [|h hs IH]; intros s rows Hq Hrel Hrows.
  - exists s. done.
  - apply Forall_cons in Hq as [Hh Hq].
    destruct (Hh _ Hrel) as (w1 & Hexec & Ht1 & Hrel1).
    rewrite (runHandlers_step_ok _ _ _ _ Hexec).
    rewrite Hrows in Ht1.
    destruct (execUpdate_reliable (λ r, mkSchema (GetIndex h) (dirty r)) _ _ Hrel1 Ht1)
      as (d & Hup & Htd & Hreld).
    unfold execUpdateSchema. rewrite Hup.
    apply (IH _ _ Hq); done.
Qed.

Lemma rowsAfter_ordinals (hs : list (Handler FS)) :
  ∀ (i : Z) (n : nat) (b : bool),
    map GetIndex hs = ordinalsFrom i n →
    rowsAfter hs [mkSchema i b] = [mkSchema (i + Z.of_nat n) b].
Proof.
  induction hs as [|h hs IH]; intros i n b Hidx; destruct n as [|n]; try discriminate.
  - cbn. by rewrite Z.add_0_r.
  - cbn in Hidx. injection Hidx as Hh Hhs.
    unfold rowsAfter. cbn [fold_left map dirty]. rewrite Hh.
    fold (rowsAfter hs [mkSchema (i + 1) b]). rewrite (IH _ _ _ Hhs).
    do 2 f_equal. lia.
Qed.

Lemma flat_map_stepEvents (hs : list (Handler FS)) :
  flat_map stepEvents hs = flat_map ordinalEvents (map GetIndex hs).
Proof. induction hs as [|h hs IH]; [done|]. cbn. by rewrite IH. Qed.

(** ** Building the chain *)

Lemma appended_nil s : appended [] s = s.
Proof. destruct s as [[] ? ?]. unfold appended. cbn. by rewrite app_nil_r. Qed.

Lemma appended_app (rs1 rs2 : list (Handler FS)) s :
  appended rs2 (appended rs1 s) = appended (rs1 ++ rs2) s.
Proof. unfold appended. cbn. by rewrite app_assoc. Qed.

Lemma getFileContent_frame (fileName : string) s (r : result string) s' :
  getFileContent fileName s = (r, s') → s' = s.
Proof.
  unfold getFileContent, bind, getFS, liftResult.
  destruct (os_Open _ _); by intros [= <- <-].
Qed.

Lemma buildHandler_frame (methodMap : gmap string (method FS)) (fileNameMap : gset string)
    (i : Z) (item : string) s (r : result unit) s' :
  buildHandler methodMap fileNameMap i item s = (r, s') →
  ∃ rs, s' = appended rs s.
Proof.
  unfold buildHandler, bind at 1, getEng.
  destruct (decide (Ext item = sqlFileExt)).
  - destruct (decide (item ∈ fileNameMap)).
    + unfold bind. destruct (getFileContent _ s) as [rc sc] eqn:Hc.
      apply getFileContent_frame in Hc as ->.
      destruct rc; intros [= <- <-];
        [by exists [newSQLHandler (i + 1) a] | | ]; exists []; by rewrite appended_nil.
    + intros [= <- <-]. exists []. by rewrite appended_nil.
  - destruct (decide (Ext item = funcExt)).
    + destruct (methodMap !! item) as [mt|].
      * unfold bind. destruct (checkMethodFormat mt); cbn; intros [= <- <-].
        -- exists []. by rewrite appended_nil.
        -- by exists [newGoHandler (i + 1) (mt_value mt)].
      * intros [= <- <-]. exists []. by rewrite appended_nil.
    + intros [= <- <-]. exists []. by rewrite appended_nil.
Qed.

Lemma buildHandlers_frame (methodMap : gmap string (method FS)) (fileNameMap : gset string)
    (items : list string) :
  ∀ (i : Z) s (r : result unit) s',
    buildHandlers methodMap fileNameMap i items s = (r, s') →
    ∃ rs, s' = appended rs s.
Proof.
  induction items as [|item items IH]; intros i s r s' Hb.
  - cbn in Hb. injection Hb as <- <-. exists []. by rewrite appended_nil.
  - cbn [buildHandlers] in Hb. unfold bind in Hb.
    destruct (buildHandler _ _ _ _ s) as [r1 s1] eqn:H1.
    apply buildHandler_frame in H1 as [rs1 ->].
    destruct r1 as [[]|e|]; [|injection Hb as <- <-; eauto..].
    apply IH in Hb as [rs2 ->]. exists (rs1 ++ rs2). apply appended_app.
Qed.

Lemma buildHandler_resolvable (methodMap : gmap string (method FS))
    (fileNameMap : gset string) (i : Z) (item : string) s :
  resolvable (eng s) (fs (world s)) methodMap fileNameMap item →
  ∃ h, buildHandler methodMap fileNameMap i item s = (Ok tt, appended [h] s) ∧
       GetIndex h = i + 1 ∧ (succeeding methodMap item → quiet h).
Proof.
  unfold buildHandler, bind at 1, getEng.
  intros [(Hext & Hin & data & Hopen) | (Hext & mt & Hmt & Hfmt)].
  - destruct (decide (Ext item = sqlFileExt)); [|done].
    destruct (decide (item ∈ fileNameMap)); [|done].
    exists (newSQLHandler (i + 1) data).
    unfold bind, getFileContent, bind, getFS, liftResult. rewrite Hopen. cbn.
    split; [done|]. split; [done|]. intros _. apply sql_quiet.
  - destruct (decide (Ext item = sqlFileExt)) as [Hsql|_];
      [rewrite Hext in Hsql; discriminate|].
    destruct (decide (Ext item = funcExt)); [|done].
    rewrite Hmt. exists (newGoHandler (i + 1) (mt_value mt)).
    unfold bind. rewrite Hfmt. cbn.
    split; [done|]. split; [done|]. intros Hs. apply go_quiet. by apply Hs.
Qed.

Lemma resolvable_appended (rs : list (Handler FS)) s
    (methodMap : gmap string (method FS)) (fileNameMap : gset string) (item : string) :
  resolvable (eng s) (fs (world s)) methodMap fileNameMap item →
  resolvable (eng (appended rs s)) (fs (world (appended rs s))) methodMap fileNameMap item.
Proof. done. Qed.

Lemma buildHandlers_resolvable (methodMap : gmap string (method FS))
    (fileNameMap : gset string) (items : list string) :
  ∀ (i : Z) s,
    (∀ item, item ∈ items →
       resolvable (eng s) (fs (world s)) methodMap fileNameMap item
       ∧ succeeding methodMap item) →
    ∃ rs, buildHandlers methodMap fileNameMap i items s = (Ok tt, appended rs s) ∧
          map GetIndex rs = ordinalsFrom i (length items) ∧
          Forall quiet rs.
Proof.
  induction items as [|item items IH]; intros i s Hres.
  - exists []. rewrite appended_nil. done.
  - destruct (Hres item) as [Hitem Hsucc]; [by left|].
    destruct (buildHandler_resolvable _ _ i _ _ Hitem) as (h & Hb & Hidx & Hq).
    destruct (IH (i + 1) (appended [h] s)) as (rs & Hbs & Hidxs & Hqs).
    { intros item' Hin. destruct (Hres item') as [Hr Hs]; [by right|].
      split; [by apply resolvable_appended | done]. }
    exists (h :: rs). cbn [buildHandlers]. unfold bind. rewrite Hb, Hbs.
    rewrite appended_app. cbn [app map length ordinalsFrom].
    split; [done|]. split; [by rewrite Hidx, Hidxs|].
    apply Forall_cons. split; [by apply Hq | done].
Qed.

(** ** A run that succeeds *)

Lemma checkSameAsFunc_ok (names : list string) (methodMap : gmap string (method FS)) s :
  (∀ name, name ∈ names → methodMap !! name = None) →
  checkSameAsFunc names methodMap s = (Ok tt, s).
Proof.
  induction names as [|name names IH]; intros Hnone; [done|].
  cbn [checkSameAsFunc].
  destruct (decide (is_Some (methodMap !! name))) as [[mt Hmt]|_].
  - rewrite Hnone in Hmt by (by left). discriminate.
  - apply IH. intros name' Hin. apply Hnone. by right.
Qed.

Lemma validating_ok s (items : list string) (methodMap : gmap string (method FS))
    (fileNameMap : gset string) :
  wellFormedList s items →
  namesValidated s methodMap fileNameMap →
  validating s = (Ok (items, methodMap, fileNameMap), s).
Proof.
  intros (file & Hopen & Hscan & Hnd & Hblank) (entries & Hmm & Hdir & Hfm & Hsame).
  unfold validating, bind at 1.
  rewrite (getSchemaItems_open _ _ Hopen), Hscan, parseItems_ok by done.
  unfold bind at 1, getMethods, bind at 1, getEng, liftResult. rewrite Hmm.
  unfold bind at 1, getFileNames, bind at 1, getEng, bind at 1, getFS.
  rewrite Hdir. unfold liftResult. rewrite Hfm.
  unfold bind. rewrite checkSameAsFunc_ok; [done|].
  intros name Hin. apply Hsame. by apply elem_of_elements.
Qed.

(** A run on a store that answers, whose record is clean and not
    ahead of the list, with handlers and steps that succeed: the run
    resolves the items after the stored version and executes the whole
    of [m.handlers], the handlers it found there first. *)
Lemma Run_succeeds s (items : list string) (methodMap : gmap string (method FS))
    (fileNameMap : gset string) :
  validating s = (Ok (items, methodMap, fileNameMap), s) →
  reliable (db (world s)) →
  dirty (recordRead (db (world s))) = false →
  0 ≤ version (recordRead (db (world s))) ≤ Z.of_nat (length items) →
  (∀ item, item ∈ drop (Z.to_nat (version (recordRead (db (world s))))) items →
     resolvable (eng s) (fs (world s)) methodMap fileNameMap item
     ∧ succeeding methodMap item) →
  Forall quiet (handlers (eng s)) →
  ∃ rs s',
    Run s = (Ok tt, s') ∧
    handlers (eng s') = handlers (eng s) ++ rs ∧
    map GetIndex rs
    = ordinalsFrom (version (recordRead (db (world s))))
        (length items - Z.to_nat (version (recordRead (db (world s))))) ∧
    trace s' = trace s ++ recordReads (db (world s))
                 ++ flat_map stepEvents (handlers (eng s) ++ rs) ∧
    table (db (world s'))
    = Some (rowsAfter (handlers (eng s) ++ rs) (rowsRead (db (world s)))) ∧
    reliable (db (world s')) ∧ Forall quiet rs.
Proof.
  intros Hv Hrel Hclean Hrange Hres Hold.
  destruct (getSchemaRecord_reliable _ Hrel) as (s1 & Hr & He1 & Hf1 & Ht1 & Hrows1 & _ & Hrel1).
  rewrite (Run_after_read _ _ _ _ _ Hv Hr). cbn [fst snd].
  set (r := recordRead (db (world s))) in *.
  unfold resolving. rewrite Hclean.
  destruct (Z.ltb_spec (Z.of_nat (length items)) (version r)); [lia|].
  destruct (Z.ltb_spec (version r) 0); [lia|].
  destruct (buildHandlers_resolvable methodMap fileNameMap
              (drop (Z.to_nat (version r)) items) (version r) s1) as (rs & Hb & Hidx & Hq).
  { intros item Hin. rewrite He1, Hf1. by apply Hres. }
  unfold bind at 1. rewrite Hb.
  unfold run, bind, getEng. cbn [appended eng withEng withHandlers handlers].
  rewrite He1.
  destruct (runHandlers_quiet (handlers (eng s) ++ rs) (appended rs s1)
              (rowsRead (db (world s)))) as (s' & Hrun & Hrows' & Hrel').
  { apply Forall_app. done. }
  { done. }
  { done. }
  exists rs, s'. rewrite Hrun.
  apply runHandlers_ok_trace in Hrun as [Htr He'].
  cbn [appended trace eng withEng withHandlers handlers] in Htr, He'.
  rewrite length_drop in Hidx.
  rewrite He', Htr, Ht1, He1, <- app_assoc. done.
Qed.

Lemma freshStore_read (d : DB) :
  freshStore d → recordRead d = mkSchema 0 false ∧ rowsRead d = [mkSchema 0 false].
Proof.
  unfold freshStore, recordRead, rowsRead, stored.
  intros [-> | [-> | ->]]; done.
Qed.


(** The run after it, on the same engine and with the same list: the
    record says that every step is applied and nothing is resolved,
    but [run] walks through [m.handlers], where the handlers of the
    first run still are, and executes every one of them again. *)
Lemma second_run_repeats_chain s (items : list string)
    (methodMap : gmap string (method FS)) (fileNameMap : gset string) s1 :
  handlers (eng s) = [] →
  wellFormedList s items →
  namesValidated s methodMap fileNameMap →
  (∀ item, item ∈ items →
     resolvable (eng s) (fs (world s)) methodMap fileNameMap item
     ∧ succeeding methodMap item) →
  freshStore (db (world s)) →
  reliable (db (world s)) →
  Run s = (Ok tt, s1) →
  validating s1 = (Ok (items, methodMap, fileNameMap), s1) →
  ∃ s2, Run s1 = (Ok tt, s2) ∧
        trace s2 = trace s1 ++ [EvCreateTable; EvQueryRecord]
                     ++ flat_map ordinalEvents (ordinalsFrom 0 (length items)).
Proof.
  intros Hnew Hlist Hnames Hres Hfresh Hrel Hrun1 Hv1.
  destruct (freshStore_read _ Hfresh) as [Hrec Hrows].
  destruct (Run_succeeds s items methodMap fileNameMap)
    as (rs & s1' & Hrun & Hhs & Hidx & _ & Htab & Hrel1 & Hq).
  { by apply validating_ok. } { done. } { by rewrite Hrec. }
  { rewrite Hrec. cbn. lia. }
  { rewrite Hrec. cbn [version]. change (Z.to_nat 0) with 0%nat. by rewrite drop_0. }
  { rewrite Hnew. constructor. }
  rewrite Hrun1 in Hrun. injection Hrun as <-.
  rewrite Hrec in Hidx. cbn [version] in Hidx.
  change (Z.to_nat 0) with 0%nat in Hidx. rewrite Nat.sub_0_r in Hidx.
  rewrite Hnew in Hhs, Htab. cbn [app] in Hhs, Htab.
  rewrite Hrows, (rowsAfter_ordinals _ _ _ _ Hidx), Z.add_0_l in Htab.
  assert (Hrec1 : recordRead (db (world s1)) = mkSchema (Z.of_nat (length items)) false).
  { unfold recordRead, stored. by rewrite Htab. }
  destruct (Run_succeeds s1 items methodMap fileNameMap)
    as (rs2 & s2 & Hrun2 & _ & Hidx2 & Htr2 & _).
  { done. } { done. } { by rewrite Hrec1. }
  { rewrite Hrec1. cbn. lia. }
  { rewrite Hrec1. cbn [version]. rewrite Nat2Z.id, drop_all.
    intros item Hin. by apply elem_of_nil in Hin. }
  { by rewrite Hhs. }
  rewrite Hrec1 in Hidx2. cbn [version] in Hidx2.
  rewrite Nat2Z.id, Nat.sub_diag in Hidx2. cbn in Hidx2.
  apply map_eq_nil in Hidx2 as ->.
  exists s2. split; [done|].
  rewrite Htr2, app_nil_r, Hhs, flat_map_stepEvents, Hidx.
  unfold recordReads, stored. by rewrite Htab.
Qed.

(** ** Handlers added by the caller *)

Lemma resolving_frame (items : list string) (methodMap : gmap string (method FS))
    (fileNameMap : gset string) (record : schema) s (r : result unit) s' :
  resolving items methodMap fileNameMap record s = (r, s') →
  ∃ rs, s' = appended rs s.
Proof.
  unfold resolving, fail, panic.
  destruct (dirty record); [intros [= <- <-]; exists []; by rewrite appended_nil|].
  destruct (_ <? _); [intros [= <- <-]; exists []; by rewrite appended_nil|].
  destruct (_ <? _); [intros [= <- <-]; exists []; by rewrite appended_nil|].
  apply buildHandlers_frame.
Qed.

Lemma prepare_handlers s (r : result unit) s1 :
  prepare s = (r, s1) → ∃ rs, handlers (eng s1) = handlers (eng s) ++ rs.
Proof.
  unfold prepare, bind.
  destruct (validating s) as [rv sv] eqn:Hv.
  apply validating_frame in Hv as (Hev & _ & _).
  destruct rv as [v|e|];
    [|intros [= <- <-]; exists []; by rewrite app_nil_r, Hev..].
  destruct (getSchemaRecord sv) as [rr sr] eqn:Hr.
  apply getSchemaRecord_frame in Hr as (Her & _ & _).
  destruct rr as [record|e|];
    [|intros [= <- <-]; exists []; by rewrite app_nil_r, Her, Hev..].
  intros Hres. apply resolving_frame in Hres as [rs ->].
  exists rs. cbn. by rewrite Her, Hev.
Qed.

Lemma buildHandler_ok (methodMap : gmap string (method FS)) (fileNameMap : gset string)
    (i : Z) (item : string) s s' :
  buildHandler methodMap fileNameMap i item s = (Ok tt, s') →
  ∃ h, s' = appended [h] s ∧ GetIndex h = i + 1.
Proof.
  unfold buildHandler, bind at 1, getEng.
  destruct (decide (Ext item = sqlFileExt)).
  - destruct (decide (item ∈ fileNameMap)); [|discriminate].
    unfold bind. destruct (getFileContent _ s) as [rc sc] eqn:Hc.
    apply getFileContent_frame in Hc as ->.
    destruct rc; intros [= <-]. by exists (newSQLHandler (i + 1) a).
  - destruct (decide (Ext item = funcExt)); [|discriminate].
    destruct (methodMap !! item) as [mt|]; [|discriminate].
    unfold bind. destruct (checkMethodFormat mt); cbn; intros [= <-].
    by exists (newGoHandler (i + 1) (mt_value mt)).
Qed.

Lemma buildHandlers_ok (methodMap : gmap string (method FS)) (fileNameMap : gset string)
    (items : list string) :
  ∀ (i : Z) s s',
    buildHandlers methodMap fileNameMap i items s = (Ok tt, s') →
    ∃ rs, s' = appended rs s ∧ map GetIndex rs = ordinalsFrom i (length items).
Proof.
  induction items as [|item items IH]; intros i s s' Hb.
  - cbn in Hb. injection Hb as <-. exists []. by rewrite appended_nil.
  - cbn [buildHandlers] in Hb. unfold bind in Hb.
    destruct (buildHandler _ _ _ _ s) as [[[]|e|] s1] eqn:H1; [|discriminate..].
    apply buildHandler_ok in H1 as (h & -> & Hh).
    apply IH in Hb as (rs & -> & Hrs).
    exists (h :: rs). rewrite appended_app. cbn. by rewrite Hh, Hrs.
Qed.

(** The chain of a run that reached [run]: the handlers that were
    there, then one handler for each item after the stored version,
    with the ordinal of its item as index. *)
Lemma prepare_ok s s0 :
  prepare s = (Ok tt, s0) →
  ∃ (r : schema) (rs : list (Handler FS)) (n : nat),
    stored (db (world s0)) = Some r ∧ dirty r = false ∧
    handlers (eng s0) = handlers (eng s) ++ rs ∧
    map GetIndex rs = ordinalsFrom (version r) n.
Proof.
  unfold prepare, bind.
  destruct (validating s) as [[v|e|] sv] eqn:Hv; [|discriminate..].
  apply validating_frame in Hv as (Hev & _ & _).
  destruct (getSchemaRecord sv) as [[r|e|] sr] eqn:Hr; [|discriminate..].
  pose proof (getSchemaRecord_frame _ _ _ Hr) as (Her & _ & _).
  apply getSchemaRecord_ok in Hr as (Hst & _ & _).
  unfold resolving, fail, panic.
  destruct (dirty r) eqn:Hd; [discriminate|].
  destruct (_ <? _); [discriminate|].
  destruct (_ <? _); [discriminate|].
  intros Hb. apply buildHandlers_ok in Hb as (rs & -> & Hrs).
  exists r, rs, (length (drop (Z.to_nat (version r)) v.1.1)).
  cbn. rewrite Her, Hev. done.
Qed.

Lemma ordinalsFrom_lookup (n : nat) :
  ∀ (i : Z) (k : nat) (x : Z),
    ordinalsFrom i n !! k = Some x → x = i + Z.of_nat k + 1.
Proof.
  induction n as [|n IH]; intros i k x Hk; [discriminate|].
  destruct k as [|k]; cbn in Hk.
  - injection Hk as <-. lia.
  - apply IH in Hk. lia.
Qed.

(** C3.  Let [h] be the first handler to fail in a run that reached
    [run]: the handlers before it ran to the end, and [h.Exec] returns
    the error [e].  Then the run issues the dirty update with the index
    of [h] and stops: after step 5 its calls are one execution and one
    version update for each earlier handler, the execution of [h] and
    the dirty update; no later handler is executed.  When the dirty
    update succeeds, [Run] returns [e] itself and every row of the
    table is [{GetIndex h, true}].  On a new engine the index of [h]
    is its ordinal in the list: the stored version plus its place in
    the chain. *)
Theorem first_failure_marks_dirty s s0 (pre post : list (Handler FS)) h s1
    (e : error) w1 :
  prepare s = (Ok tt, s0) →
  handlers (eng s0) = pre ++ h :: post →
  runHandlers pre s0 = (Ok tt, s1) →
  Exec h (world s1) = (Some e, w1) →
  ∃ (r : result unit) s2,
    Run s = (r, s2) ∧
    trace s2 = trace s0 ++ flat_map stepEvents pre
                 ++ [EvExec (GetIndex h); EvUpdateDirty (GetIndex h)] ∧
    (∀ d, execUpdateDirty (GetIndex h) true (db w1) = (None, d) →
       r = Err e ∧ world s2 = withDB d w1 ∧
       ∃ rows, table (db w1) = Some rows ∧
               table d = Some (map (λ _, mkSchema (GetIndex h) true) rows)) ∧
    (handlers (eng s) = [] →
       ∃ r0, stored (db (world s0)) = Some r0 ∧
             GetIndex h = version r0 + Z.of_nat (length pre) + 1).
Proof.
  intros Hprep Hchain Hpre Hexec.
  rewrite Run_phases. unfold bind at 1. rewrite Hprep.
  unfold run, bind at 1, getEng. rewrite Hchain, runHandlers_app.
  unfold bind. rewrite Hpre.
  rewrite (runHandlers_step_fail _ _ _ _ _ Hexec).
  apply runHandlers_ok_trace in Hpre as [Htr _].
  destruct (execUpdateDirty _ _ _) as [inner d] eqn:Hup.
  eexists _, _. split; [reflexivity|]. cbn [trace world].
  split; [by rewrite Htr, <- app_assoc|]. split.
  - intros d' [= -> <-]. split; [done|]. split; [done|].
    apply execUpdate_ok in Hup as (rows & Hrows & Hrows' & _). eauto.
  - intros Hnew.
    destruct (prepare_ok _ _ Hprep) as (r0 & rs & n & Hst & _ & Hrs & Hidx).
    rewrite Hnew, Hchain in Hrs. cbn [app] in Hrs. subst rs.
    exists r0. split; [done|].
    apply (ordinalsFrom_lookup n (version r0) (length pre)).
    rewrite <- Hidx, list_lookup_fmap, list_lookup_middle by done. done.
Qed.

(** C10.  Handlers given to [AddHandlers] on a new engine are at the
    head of [m.handlers] when [run] starts; the handlers that [Run]
    resolves from the list come after them.  [run] executes the added
    handlers in the order of registration and only then the resolved
    ones.  When an added handler succeeds, the update that follows sets
    the version of every row to that handler's own [GetIndex()],
    whatever the record was. *)
Theorem added_handlers_run_first s0 (hs : list (Handler FS)) s s1 :
  handlers (eng s0) = [] →
  AddHandlers hs s0 = (Ok tt, s) →
  prepare s = (Ok tt, s1) →
  ∃ rs,
    handlers (eng s1) = hs ++ rs ∧
    Run s = (runHandlers hs ;; runHandlers rs) s1 ∧
    ∀ (pre post : list (Handler FS)) h sa w d,
      hs = pre ++ h :: post →
      runHandlers pre s1 = (Ok tt, sa) →
      Exec h (world sa) = (None, w) →
      execUpdateSchema (GetIndex h) (db w) = (None, d) →
      runHandlers (pre ++ [h]) s1
      = (Ok tt, mkState (eng sa) (withDB d w) (trace sa ++ stepEvents h)) ∧
      ∃ rows, table (db w) = Some rows ∧
              table d = Some (map (λ r, mkSchema (GetIndex h) (dirty r)) rows).
Proof.
  intros Hnew Hadd Hprep.
  injection Hadd as <-.
  destruct (prepare_handlers _ _ _ Hprep) as [rs Hrs].
  cbn [eng withEng withHandlers handlers] in Hrs. rewrite Hnew in Hrs. cbn [app] in Hrs.
  exists rs. split; [done|]. split.
  - rewrite Run_phases. unfold bind at 1. rewrite Hprep.
    unfold run, bind at 1, getEng. rewrite Hrs. apply runHandlers_app.
  - intros pre post h sa w d _ Hpre Hexec Hup. split.
    + rewrite runHandlers_app. unfold bind. rewrite Hpre.
      rewrite (runHandlers_step_ok _ _ _ _ Hexec), Hup. reflexivity.
    + apply execUpdate_ok in Hup as (rows & Hrows & Hrows' & _). eauto.
Qed.

(** ** The SQL handler and a commit that fails *)

(** C9.  A statement that is not empty, a transaction that begins, a
    statement that executes and a commit that fails: [Exec] returns
    nil although nothing was committed, and [run] goes on to set the
    version to the index of the step. *)
Theorem failed_commit_counts_as_success (index : Z) (query : string) s
    (msg : string) (rest : list (option string)) :
  query ≠ "" →
  script (db (world s)) = None :: None :: Some msg :: rest →
  ∃ w1,
    Exec (newSQLHandler index query) (world s) = (None, w1) ∧
    applied (db w1) = applied (db (world s)) ∧
    table (db w1) = table (db (world s)) ∧
    script (db w1) = rest ∧
    ∀ d, execUpdateSchema index (db w1) = (None, d) →
      runHandlers [newSQLHandler index query] s
      = (Ok tt, mkState (eng s) (withDB d w1)
                  (trace s ++ [EvExec index; EvUpdateVersion index])) ∧
      ∃ rows, table (db (world s)) = Some rows ∧
              table d = Some (map (λ r, mkSchema index (dirty r)) rows).
Proof.
  intros Hquery Hscript.
  destruct s as [m [f [t a sc]] tr]. cbn [world db script] in Hscript. subst sc.
  assert (Hexec : Exec (newSQLHandler index query)
                    (mkWorld f (mkDB t a (None :: None :: Some msg :: rest)))
                  = (None, mkWorld f (mkDB t a rest))).
  { cbn. unfold sqlHandler_Exec. cbn [sql_query].
    destruct (decide (query = "")); [contradiction|]. reflexivity. }
  exists (mkWorld f (mkDB t a rest)). cbn [world].
  split; [exact Hexec|]. cbn [db applied table script].
  repeat (split; [done|]).
  intros d Hup. split.
  - rewrite (runHandlers_step_ok _ _ _ (mkWorld f (mkDB t a rest))) by exact Hexec.
    cbn [GetIndex newSQLHandler sqlHandler_GetIndex sql_index db] in *.
    rewrite Hup. reflexivity.
  - apply execUpdate_ok in Hup as (rows & Hrows & Hrows' & _). eauto.
Qed.

(** ** The list file *)

(** C8.  When the list file cannot be opened because it does not
    exist, [getSchemaItems] calls [os.MkdirAll] on the directory of the
    file and [os.Create] on the file; when both succeed the result is
    the empty list of items and a nil error, in the filesystem that the
    two calls leave.  When the file cannot be opened for another
    reason, the error of [os.Open] is returned and nothing is
    created. *)
Theorem missing_list_file_is_created s (e : error) :
  os_Open (schemaFileName (eng s)) (fs (world s)) = Err e →
  (isNotExist e = true →
     ∀ fs1 fs2,
       os_MkdirAll (path_Dir (schemaFileName (eng s))) (fs (world s)) = (None, fs1) →
       os_Create (schemaFileName (eng s)) fs1 = (None, fs2) →
       getSchemaItems s = (Ok [], withWorld (withFS fs2 (world s)) s)) ∧
  (isNotExist e = false → getSchemaItems s = (Err e, s)).
Proof.
  intros Hopen.
  split; intros Hne; [intros fs1 fs2 Hmk Hcr|];
    unfold getSchemaItems, bind at 1, getEng, bind at 1, getFS;
    fold (schemaFileName (eng s)); rewrite Hopen, Hne.
  - unfold bind, callFS. rewrite Hmk. cbn. rewrite Hcr. cbn.
    destruct s as [m [f d] tr]. reflexivity.
  - reflexivity.
Qed.

(** C6, amended.  The list is made of the lines of the list file that
    the scanner delivers: the lines before the first line of
    [MaxScanTokenSize] bytes or more.  When the first blank line of the
    list is line [k], is not the last line, and the lines before it
    are pairwise different, [Run] returns the empty-record error with
    [k], in the state in which it started: the store has not been
    called and no handler has been built or executed. *)
Theorem blank_line_rejected s (file : File) (pre : list string) (next : string)
    (rest : list string) :
  os_Open (schemaFileName (eng s)) (fs (world s)) = Ok file →
  ScanLines (f_data file) = pre ++ "" :: next :: rest →
  NoDup pre → "" ∉ pre →
  Run s = (Err (errSchemaRecordIsEmpty (Z.of_nat (length pre) + 1)), s).
Proof.
  intros Hopen Hscan Hnd Hblank. apply Run_items_error.
  rewrite (getSchemaItems_open _ _ Hopen), Hscan.
  by rewrite parseItems_blank.
Qed.

(** C7, amended.  The list is made of the lines of the list file that
    the scanner delivers: the lines before the first line of
    [MaxScanTokenSize] bytes or more.  When an identifier stands on two
    lines of the list, [Run] returns an error in the state in which it
    started: the store has not been called and no handler has been
    built or executed.
    The first line that repeats an earlier line or is blank decides
    the error: the duplicate error with that line when it repeats an
    earlier one, the empty-record error with its position when it is
    blank. *)
Theorem repeated_item_rejected s (file : File) (tokens : list string) (x : string) :
  os_Open (schemaFileName (eng s)) (fs (world s)) = Ok file →
  ScanLines (f_data file) = tokens →
  repeated tokens x →
  ∃ pre y rest,
    tokens = pre ++ y :: rest ∧ NoDup pre ∧ ("" ∉ pre) ∧
    ((y ∈ pre ∧ Run s = (Err (errSchemaItemIsDuplicate y), s)) ∨
     (y = "" ∧ Run s = (Err (errSchemaRecordIsEmpty (Z.of_nat (length pre) + 1)), s))).
Proof.
  intros Hopen Hscan Hrep.
  destruct (repeated_first_defect _ _ Hrep)
    as (pre & y & rest & -> & Hnd & Hblank & Hy).
  exists pre, y, rest. split; [done|]. split; [done|]. split; [done|].
  destruct Hy as [Hy | [-> Hrest]].
  - left. split; [done|]. apply Run_items_error.
    rewrite (getSchemaItems_open _ _ Hopen), Hscan.
    by rewrite parseItems_duplicate.
  - right. split; [done|]. apply Run_items_error.
    rewrite (getSchemaItems_open _ _ Hopen), Hscan.
    destruct rest as [|next rest]; [done|].
    by rewrite parseItems_blank.
Qed.

End Facts.

(** * The rest of the package *)

(** ** Which lists are accepted, and which items are SQL files *)

(** X17.  The lists that [getSchemaItems] accepts are the lists of
    pairwise different lines none of which is blank, and these lists
    followed by one blank line; the items returned are the lines
    without the blank one, in their order. *)
Theorem parseItems_accepts (tokens items : list string) :
  parseItems tokens = Ok items ↔
  NoDup items ∧ ("" ∉ items) ∧ (tokens = items ∨ tokens = items ++ [""]).
Proof.
  split.
  - intros Hparse.
    destruct (first_defect tokens) as [[Hnd Hblank] | (pre & x & rest & -> & Hnd & Hblank & Hx)].
    + rewrite parseItems_ok in Hparse by done. injection Hparse as <-. auto.
    + destruct Hx as [-> | Hx].
      * destruct rest as [|next rest].
        -- unfold parseItems in Hparse.
           rewrite scanItems_prefix in Hparse by (done || set_solver).
           cbn in Hparse. injection Hparse as <-. auto.
        -- rewrite parseItems_blank in Hparse by done. discriminate.
      * rewrite parseItems_duplicate in Hparse by done. discriminate.
  - intros (Hnd & Hblank & [-> | ->]).
    + by apply parseItems_ok.
    + unfold parseItems. rewrite scanItems_prefix by (done || set_solver).
      reflexivity.
Qed.

Lemma append_empty_r (p : string) : p +:+ "" = p.
Proof.
  induction p as [|c p IH]; [done|].
  change (String c (p +:+ "") = String c p). by rewrite IH.
Qed.

Lemma append_assoc (p q r : string) : (p +:+ q) +:+ r = p +:+ (q +:+ r).
Proof.
  induction p as [|c p IH]; [done|].
  change (String c ((p +:+ q) +:+ r) = String c (p +:+ (q +:+ r))). by rewrite IH.
Qed.

Lemma length_snoc (cur : string) (c : ascii) :
  String.length (snoc cur c) = S (String.length cur).
Proof. induction cur as [|a cur IH]; [done|]. cbn. by rewrite IH. Qed.

Lemma snoc_append (cur : string) (c : ascii) (l : string) :
  snoc cur c +:+ l = cur +:+ String c l.
Proof.
  induction cur as [|a cur IH]; [done|].
  change (String a (snoc cur c +:+ l) = String a (cur +:+ String c l)). by rewrite IH.
Qed.

(** The scanner on a line that fits into its buffer. *)
Lemma scanLinesFrom_line (l : string) :
  ∀ (cur tail : string),
    noNewline l = true →
    Z.of_nat (String.length cur + String.length l) < MaxScanTokenSize →
    scanLinesFrom cur (l +:+ String newline tail)
    = dropCR (cur +:+ l) :: scanLinesFrom "" tail.
Proof.
  induction l as [|c l IH]; intros cur tail Hnl Hlen.
  - change (scanLinesFrom cur (String newline tail)
            = dropCR (cur +:+ "") :: scanLinesFrom "" tail).
    by rewrite append_empty_r.
  - change (noNewline (String c l)) with (negb (Ascii.eqb c newline) && noNewline l) in Hnl.
    apply andb_prop in Hnl as [Hc Hnl]. apply negb_true_iff in Hc.
    change (scanLinesFrom cur (String c (l +:+ String newline tail))
            = dropCR (cur +:+ String c l) :: scanLinesFrom "" tail).
    cbn [scanLinesFrom]. rewrite Hc. cbn [String.length] in Hlen.
    destruct (Z.leb_spec MaxScanTokenSize (Z.of_nat (String.length cur) + 1)); [lia|].
    rewrite IH; [by rewrite snoc_append | done | rewrite length_snoc; lia].
Qed.

(** The scanner on a line that does not fit: no token, and none after
    it. *)
Lemma scanLinesFrom_long (long : string) :
  ∀ (cur rest : string),
    noNewline long = true →
    Z.of_nat (String.length cur) < MaxScanTokenSize →
    MaxScanTokenSize ≤ Z.of_nat (String.length cur + String.length long) →
    scanLinesFrom cur (long +:+ rest) = [].
Proof.
  induction long as [|c long IH]; intros cur rest Hnl Hcur Hlen.
  - cbn [String.length] in Hlen. lia.
  - change (noNewline (String c long))
      with (negb (Ascii.eqb c newline) && noNewline long) in Hnl.
    apply andb_prop in Hnl as [Hc Hnl]. apply negb_true_iff in Hc.
    change (scanLinesFrom cur (String c (long +:+ rest)) = []).
    cbn [scanLinesFrom]. rewrite Hc. cbn [String.length] in Hlen.
    destruct (Z.leb_spec MaxScanTokenSize (Z.of_nat (String.length cur) + 1)); [done|].
    apply IH; [done | rewrite length_snoc; lia | rewrite length_snoc; lia].
Qed.

Lemma ScanLines_lines (ls : list string) (tail : string) :
  Forall shortLine ls →
  ScanLines (lines ls +:+ tail) = map dropCR ls ++ ScanLines tail.
Proof.
  unfold ScanLines. induction 1 as [|l ls [Hnl Hlen] _ IH]; [done|].
  cbn [lines fold_right map app]. fold (lines ls).
  rewrite append_assoc.
  change (String newline (lines ls) +:+ tail) with (String newline (lines ls +:+ tail)).
  rewrite scanLinesFrom_line by done. by rewrite IH.
Qed.

Lemma Ext_suffix (path : string) : ∃ p, path = p +:+ Ext path.
Proof.
  induction path as [|c rest IH]; [by exists ""|].
  cbn [Ext]. destruct (Ext rest) as [|e ext] eqn:Hext.
  - destruct (Ascii.eqb c "." && negb (hasSlash rest)).
    + by exists "".
    + exists (String c rest). symmetry. apply append_empty_r.
  - destruct IH as [p Hp]. exists (String c p).
    change (String c rest = String c (p +:+ String e ext)). by rewrite <- Hp.
Qed.

Lemma Ext_sql (p : string) : Ext (p +:+ ".sql") = ".sql".
Proof.
  induction p as [|c p IH]; [reflexivity|].
  change (Ext (String c (p +:+ ".sql")) = ".sql"). cbn [Ext]. by rewrite IH.
Qed.

(** X16.  [Run] takes an item for an SQL file exactly when its name
    ends in [.sql]. *)
Theorem sql_item_iff_suffix (item : string) :
  Ext item = sqlFileExt ↔ ∃ p, item = p +:+ ".sql".
Proof.
  split.
  - intros Hext. destruct (Ext_suffix item) as [p Hp]. exists p.
    by rewrite Hext in Hp.
  - intros [p ->]. apply Ext_sql.
Qed.

Section Further.

Context {FS : Type} `{Platform FS}.

Local Open Scope go_scope.

Implicit Types (s : State FS) (w : World FS) (h : Handler FS).

(** ** Registered methods *)

Lemma method_eta (mt : method FS) : mkMethod (mt_name mt) (mt_value mt) = mt.
Proof. by destruct mt. Qed.

Lemma addMethods_app (object1 object2 : list (method FS)) :
  ∀ methods,
    addMethods (object1 ++ object2) methods
    = match addMethods object1 methods with
      | Ok methods => addMethods object2 methods
      | r => r
      end.
Proof.
  induction object1 as [|mt object1 IH]; intros methods; [done|].
  cbn [addMethods app].
  destruct (decide (is_Some (methods !! mt_name mt))); [done|]. apply IH.
Qed.

(** The objects up to the first nil one are read as one list of
    methods. *)
Lemma addObjects_live (live : list (list (method FS))) (rest : list (Object FS)) :
  ∀ methods,
    addObjects (map Obj live ++ rest) methods
    = match addMethods (concat live) methods with
      | Ok methods => addObjects rest methods
      | r => r
      end.
Proof.
  induction live as [|object live IH]; intros methods; [done|].
  cbn [map app addObjects concat]. rewrite addMethods_app.
  destruct (addMethods object methods) as [methods'|e|]; [apply IH|done..].
Qed.

Lemma methodsOf_live (live : list (list (method FS))) :
  methodsOf (map Obj live) = concat live.
Proof.
  unfold methodsOf. induction live as [|object live IH]; [done|].
  cbn [map concat objectMethods]. by rewrite IH.
Qed.

Lemma addObjects_all_live (live : list (list (method FS))) (methods : gmap string (method FS)) :
  addObjects (map Obj live) methods = addMethods (concat live) methods.
Proof.
  rewrite <- (app_nil_r (map Obj live)), addObjects_live.
  by destruct (addMethods (concat live) methods).
Qed.

(** A list of objects is without a nil object, or it has a first nil
    object. *)
Lemma objects_first_nil (objects : list (Object FS)) :
  ((NilObject ∉ objects) ∧ ∃ live, objects = map Obj live) ∨
  ∃ live rest, objects = map Obj live ++ NilObject :: rest.
Proof.
  induction objects as [|[|object] objects IH].
  - left. split; [by intros Hin%elem_of_nil|]. by exists [].
  - right. by exists [], objects.
  - destruct IH as [[Hnil [live ->]] | (live & rest & ->)].
    + left. split.
      * intros Hin. apply elem_of_cons in Hin as [?|?]; done.
      * by exists (object :: live).
    + right. by exists (object :: live), rest.
Qed.

Lemma addMethods_ok (object : list (method FS)) :
  ∀ methods mm,
    addMethods object methods = Ok mm →
    NoDup (map mt_name object) ∧
    (∀ mt, mt ∈ object → methods !! mt_name mt = None) ∧
    ∀ name mt, mm !! name = Some mt ↔
               (methods !! name = Some mt ∨ (mt ∈ object ∧ mt_name mt = name)).
Proof.
  induction object as [|mt0 object IH]; intros methods mm Hadd.
  - cbn in Hadd. injection Hadd as <-.
    split; [apply NoDup_nil_2|]. split; [by intros mt Hin%elem_of_nil|].
    intros name mt. split; [by left|]. intros [?|[Hin%elem_of_nil _]]; done.
  - cbn [addMethods] in Hadd.
    destruct (decide (is_Some (methods !! mt_name mt0))) as [|Hnone]; [discriminate|].
    apply eq_None_not_Some in Hnone.
    apply IH in Hadd as (Hnd & Hfresh & Hlook).
    assert (Hnotin : mt_name mt0 ∉ map mt_name object).
    { intros Hin. apply list_elem_of_fmap in Hin as (mt & Heq & Hin).
      specialize (Hfresh mt Hin). rewrite <- Heq, lookup_insert_eq in Hfresh.
      discriminate. }
    split; [by apply NoDup_cons|]. split.
    + intros mt Hin. apply elem_of_cons in Hin as [->|Hin]; [done|].
      specialize (Hfresh mt Hin).
      destruct (decide (mt_name mt0 = mt_name mt)) as [Heq|Hne].
      * rewrite Heq, lookup_insert_eq in Hfresh. discriminate.
      * by rewrite lookup_insert_ne in Hfresh.
    + intros name mt. rewrite Hlook. rewrite method_eta.
      destruct (decide (mt_name mt0 = name)) as [<-|Hne].
      * rewrite lookup_insert_eq. split.
        -- intros [[= <-] | [Hin Heq]].
           ++ right. split; [by left|done].
           ++ exfalso. apply Hnotin. apply list_elem_of_fmap. eauto.
        -- intros [Hm | [Hin Heq]]; [congruence|].
           apply elem_of_cons in Hin as [->|Hin]; [by left|].
           exfalso. apply Hnotin. apply list_elem_of_fmap. eauto.
      * rewrite lookup_insert_ne by done. split.
        -- intros [Hm | [Hin Heq]]; [by left|]. right. split; [by right|done].
        -- intros [Hm | [Hin Heq]]; [by left|].
           apply elem_of_cons in Hin as [->|Hin]; [done|]. by right.
Qed.

Lemma addMethods_total (object : list (method FS)) :
  ∀ methods,
    NoDup (map mt_name object) →
    (∀ mt, mt ∈ object → methods !! mt_name mt = None) →
    ∃ mm, addMethods object methods = Ok mm.
Proof.
  induction object as [|mt0 object IH]; intros methods Hnd Hfresh; [by eexists|].
  cbn [map] in Hnd. apply NoDup_cons in Hnd as [Hnotin Hnd].
  cbn [addMethods].
  destruct (decide (is_Some (methods !! mt_name mt0))) as [[mt Hmt]|_].
  { rewrite Hfresh in Hmt by (by left). discriminate. }
  apply IH; [done|]. intros mt Hin.
  rewrite lookup_insert_ne; [apply Hfresh; by right|].
  intros Heq. apply Hnotin. apply list_elem_of_fmap. eauto.
Qed.

(** Whatever the methods, [addMethods] returns a map or the duplicate
    error with a name that was in the map or stands twice in the list. *)
Lemma addMethods_err (object : list (method FS)) :
  ∀ methods,
    (∃ mm, addMethods object methods = Ok mm) ∨
    ∃ name, addMethods object methods = Err (errFuncNameIsDuplicate name) ∧
            name ∈ map mt_name object ∧
            (is_Some (methods !! name) ∨ ¬ NoDup (map mt_name object)).
Proof.
  induction object as [|mt0 object IH]; intros methods; [left; by eexists|].
  cbn [addMethods].
  destruct (decide (is_Some (methods !! mt_name mt0))) as [Hsome|Hnone].
  - right. exists (mt_name mt0). split; [done|]. split; [by left|by left].
  - destruct (IH (<[mt_name mt0 := mkMethod (mt_name mt0) (mt_value mt0)]> methods))
      as [Hok | (name & Herr & Hin & Hwhy)]; [by left|].
    right. exists name. split; [done|]. split; [by right|].
    destruct (decide (mt_name mt0 = name)) as [Heq|Hne].
    + right. cbn [map]. rewrite NoDup_cons. rewrite Heq. tauto.
    + destruct Hwhy as [Hsome | Hdup].
      * left. by rewrite lookup_insert_ne in Hsome.
      * right. cbn [map]. rewrite NoDup_cons. tauto.
Qed.

Lemma addMethods_not_panic (object : list (method FS)) :
  ∀ methods, addMethods object methods ≠ Panic.
Proof.
  intros methods Hp.
  destruct (addMethods_err object methods) as [[mm Hok] | (name & Herr & _)];
    congruence.
Qed.

(** The first name of the list that is bound already, or stands
    earlier in the list, is the one that [addMethods] reports. *)
Lemma addMethods_first_duplicate (object : list (method FS)) :
  ∀ methods (pre : list string) (name : string) (post : list string),
    map mt_name object = pre ++ name :: post →
    NoDup pre →
    (∀ n, n ∈ pre → methods !! n = None) →
    name ∈ pre ∨ is_Some (methods !! name) →
    addMethods object methods = Err (errFuncNameIsDuplicate name).
Proof.
  induction object as [|mt object IH]; intros methods pre name post Hnames Hnd Hfresh Hdup.
  - by destruct pre.
  - destruct pre as [|n pre]; cbn [map app] in Hnames; injection Hnames as Hn Hnames.
    + cbn [addMethods]. destruct Hdup as [Hin%elem_of_nil | Hsome]; [done|].
      rewrite Hn. by destruct (decide (is_Some (methods !! name))).
    + cbn [addMethods]. rewrite Hn.
      destruct (decide (is_Some (methods !! n))) as [[m Hm]|_].
      { rewrite Hfresh in Hm by (by left). discriminate. }
      apply NoDup_cons in Hnd as [Hnotin Hnd].
      apply (IH _ pre name post); [done|done|..].
      * intros n' Hin. rewrite lookup_insert_ne; [apply Hfresh; by right|].
        by intros ->.
      * destruct Hdup as [Hin | Hsome].
        -- apply elem_of_cons in Hin as [-> | Hin]; [|by left].
           right. rewrite lookup_insert_eq. by eexists.
        -- destruct (decide (n = name)) as [->|Hne].
           ++ right. rewrite lookup_insert_eq. by eexists.
           ++ right. by rewrite lookup_insert_ne.
Qed.

(** A list with a repetition has a first element that repeats an
    earlier one. *)
Lemma first_repetition (l : list string) :
  NoDup l ∨ ∃ pre x post, l = pre ++ x :: post ∧ NoDup pre ∧ x ∈ pre.
Proof.
  induction l as [|a l IH] using rev_ind; [left; apply NoDup_nil_2|].
  destruct IH as [Hnd | (pre & x & post & -> & Hnd & Hin)].
  - destruct (decide (a ∈ l)) as [Hin|Hnotin].
    + right. by exists l, a, [].
    + left. apply NoDup_app. split; [done|]. split; [|apply NoDup_singleton].
      intros y Hy Hya. apply list_elem_of_singleton in Hya as ->. done.
  - right. exists pre, x, (post ++ [a]). split; [|done].
    by rewrite <- app_assoc.
Qed.

(** X1.  [getMethods] returns a map exactly when no registered object
    is the nil interface and no two methods of the registered objects
    have the same name; the map then binds every name to its method
    and nothing else.  It panics exactly when a nil object is
    registered and the methods of the objects before the first nil
    one have pairwise different names. *)
Theorem getMethods_distinct_names (objects : list (Object FS)) :
  ((∃ mm, addObjects objects ∅ = Ok mm) ↔
     (NilObject ∉ objects) ∧ NoDup (map mt_name (methodsOf objects))) ∧
  (addObjects objects ∅ = Panic ↔
     ∃ live rest, objects = map Obj live ++ NilObject :: rest ∧
                  NoDup (map mt_name (concat live))) ∧
  ∀ mm, addObjects objects ∅ = Ok mm →
    ∀ name mt, mm !! name = Some mt ↔ (mt ∈ methodsOf objects ∧ mt_name mt = name).
Proof.
  split; [|split].
  - destruct (objects_first_nil objects) as [[Hnil [live ->]] | (live & rest & ->)].
    + rewrite methodsOf_live, addObjects_all_live. split.
      * intros [mm Hok]. split; [done|].
        by apply addMethods_ok in Hok as (Hnd & _ & _).
      * intros [_ Hnd]. apply addMethods_total; [done|].
        intros mt _. apply lookup_empty.
    + rewrite addObjects_live. split.
      * intros [mm Hok]. by destruct (addMethods (concat live) ∅).
      * intros [Hnil _]. exfalso. apply Hnil. apply elem_of_app. right. by left.
  - split.
    + intros Hp.
      destruct (objects_first_nil objects) as [[Hnil [live ->]] | (live & rest & ->)].
      * rewrite addObjects_all_live in Hp. by apply addMethods_not_panic in Hp.
      * exists live, rest. split; [done|]. rewrite addObjects_live in Hp.
        destruct (addMethods (concat live) ∅) as [mm|e|] eqn:Hadd; [|done|].
        -- by apply addMethods_ok in Hadd as (Hnd & _ & _).
        -- by apply addMethods_not_panic in Hadd.
    + intros (live & rest & -> & Hnd). rewrite addObjects_live.
      destruct (addMethods_total (concat live) ∅ Hnd) as [mm ->]; [|done].
      intros mt _. apply lookup_empty.
  - intros mm Hok.
    destruct (objects_first_nil objects) as [[Hnil [live ->]] | (live & rest & ->)].
    + rewrite methodsOf_live. rewrite addObjects_all_live in Hok.
      intros name mt. apply addMethods_ok in Hok as (_ & _ & Hlook).
      rewrite Hlook, lookup_empty. split; [intros [?|?]; done | by right].
    + rewrite addObjects_live in Hok. by destruct (addMethods (concat live) ∅).
Qed.

(** X2.  Let the list file be read, and let no nil object be
    registered before two methods of the same name.  Then [Run] fails
    with the duplicate-function error for the first method name, in
    the order in which [getMethods] meets the methods, that repeats an
    earlier one: the directory is not listed, the store is not called
    and the state is what it was. *)
Theorem duplicate_method_stops_run s (file : File) (items : list string)
    (live : list (list (method FS))) (rest : list (Object FS)) :
  os_Open (schemaFileName (eng s)) (fs (world s)) = Ok file →
  parseItems (ScanLines (f_data file)) = Ok items →
  applyObjects (eng s) = map Obj live ++ rest →
  ¬ NoDup (map mt_name (concat live)) →
  ∃ pre name post,
    map mt_name (concat live) = pre ++ name :: post ∧ NoDup pre ∧ name ∈ pre ∧
    Run s = (Err (errFuncNameIsDuplicate name), s).
Proof.
  intros Hopen Hparse Hobjects Hdup.
  destruct (first_repetition (map mt_name (concat live)))
    as [Hnd | (pre & name & post & Hnames & Hnd & Hin)]; [done|].
  exists pre, name, post. split; [done|]. split; [done|]. split; [done|].
  unfold Run, bind at 1. rewrite (getSchemaItems_open _ _ Hopen), Hparse.
  unfold bind at 1, getMethods, bind at 1, getEng, liftResult.
  rewrite Hobjects, addObjects_live.
  rewrite (addMethods_first_duplicate _ _ pre name post Hnames Hnd);
    [reflexivity | intros n _; apply lookup_empty | by left].
Qed.

(** ** The files of the directory *)

Lemma addFileNames_ok (entries : list DirEntry) :
  ∀ (names fm : gset string),
    addFileNames entries names = Ok fm →
    ∀ name, name ∈ fm ↔ (name ∈ names ∨ name ∈ fileNamesOf entries).
Proof.
  unfold fileNamesOf.
  induction entries as [|entry entries IH]; intros names fm Hadd name.
  - cbn in Hadd. injection Hadd as <-. cbn. rewrite elem_of_nil. tauto.
  - cbn [addFileNames] in Hadd. destruct entry as [n [|]]; cbn [IsDir Name] in Hadd.
    + rewrite filter_cons_False by (cbn; discriminate). by apply IH.
    + destruct (decide (n ∈ names)); [discriminate|].
      rewrite filter_cons_True by done. cbn [map Name].
      rewrite (IH _ _ Hadd), elem_of_union, elem_of_singleton, elem_of_cons. tauto.
Qed.

Lemma addFileNames_total (entries : list DirEntry) :
  ∀ (names : gset string),
    NoDup (fileNamesOf entries) →
    (∀ name, name ∈ fileNamesOf entries → name ∉ names) →
    ∃ fm, addFileNames entries names = Ok fm.
Proof.
  unfold fileNamesOf.
  induction entries as [|entry entries IH]; intros names Hnd Hfresh; [by eexists|].
  cbn [addFileNames]. destruct entry as [n [|]]; cbn [IsDir Name].
  - rewrite filter_cons_False in Hnd, Hfresh by (cbn; discriminate). by apply IH.
  - rewrite filter_cons_True in Hnd, Hfresh by done. cbn [map Name] in Hnd, Hfresh.
    apply NoDup_cons in Hnd as [Hnotin Hnd].
    destruct (decide (n ∈ names)) as [Hin|_].
    { exfalso. apply (Hfresh n); [by left|done]. }
    apply IH; [done|]. intros name Hin.
    apply not_elem_of_union. split.
    + apply not_elem_of_singleton. by intros ->.
    + apply Hfresh. by right.
Qed.

(** X3.  On a listing whose files have pairwise different names, as a
    directory has them, [getFileNames] returns the set of the names of
    the entries that are not directories, and leaves the state alone;
    subdirectories are passed over. *)
Theorem getFileNames_lists_files s (entries : list DirEntry) :
  os_ReadDir (schemaDir (eng s)) (fs (world s)) = Ok entries →
  NoDup (fileNamesOf entries) →
  ∃ fm, getFileNames s = (Ok fm, s) ∧
        ∀ name, name ∈ fm ↔ name ∈ fileNamesOf entries.
Proof.
  intros Hdir Hnd.
  destruct (addFileNames_total entries ∅ Hnd) as [fm Hfm].
  { intros name _. apply not_elem_of_empty. }
  exists fm. split.
  - unfold getFileNames, bind at 1, getEng, bind at 1, getFS.
    rewrite Hdir. unfold liftResult. by rewrite Hfm.
  - intros name. rewrite (addFileNames_ok _ _ _ Hfm). set_solver.
Qed.

Lemma checkSameAsFunc_err (names : list string) (methodMap : gmap string (method FS)) s
    (name : string) :
  name ∈ names → is_Some (methodMap !! name) →
  ∃ name', name' ∈ names ∧ is_Some (methodMap !! name') ∧
           checkSameAsFunc names methodMap s = (Err (errFileIsSameAsFunc name'), s).
Proof.
  induction names as [|n names IH]; intros Hin Hsome; [by apply elem_of_nil in Hin|].
  cbn [checkSameAsFunc].
  destruct (decide (is_Some (methodMap !! n))) as [Hn|Hn].
  - exists n. split; [by left|done].
  - apply elem_of_cons in Hin as [->|Hin]; [done|].
    destruct (IH Hin Hsome) as (name' & Hin' & Hsome' & Hc).
    exists name'. split; [by right|done].
Qed.

(** X4.  When a file of the directory has the name of a registered
    method, [Run] fails with the same-as-function error for such a
    name; the store has not been called and the state is what it
    was. *)
Theorem file_named_like_method_stops_run s (items : list string)
    (methodMap : gmap string (method FS)) (entries : list DirEntry)
    (fileNameMap : gset string) (name : string) :
  wellFormedList s items →
  addObjects (applyObjects (eng s)) ∅ = Ok methodMap →
  os_ReadDir (schemaDir (eng s)) (fs (world s)) = Ok entries →
  addFileNames entries ∅ = Ok fileNameMap →
  name ∈ fileNameMap → is_Some (methodMap !! name) →
  ∃ name', name' ∈ fileNameMap ∧ is_Some (methodMap !! name') ∧
           Run s = (Err (errFileIsSameAsFunc name'), s).
Proof.
  intros (file & Hopen & Hscan & Hnd & Hblank) Hmm Hdir Hfm Hin Hsome.
  destruct (checkSameAsFunc_err (elements fileNameMap) methodMap s name)
    as (name' & Hin' & Hsome' & Hc); [by apply elem_of_elements | done |].
  exists name'. split; [by apply elem_of_elements in Hin'|]. split; [done|].
  unfold Run, bind at 1.
  rewrite (getSchemaItems_open _ _ Hopen), Hscan, parseItems_ok by done.
  unfold bind at 1, getMethods, bind at 1, getEng, liftResult. rewrite Hmm.
  unfold bind at 1, getFileNames, bind at 1, getEng, bind at 1, getFS.
  rewrite Hdir. unfold liftResult. rewrite Hfm.
  unfold bind at 1. rewrite Hc. reflexivity.
Qed.

(** ** Resolution before execution *)

Lemma prepare_trace s (r : result unit) s' :
  prepare s = (r, s') →
  ∃ reads, trace s' = trace s ++ reads ∧ Forall readEvent reads.
Proof.
  unfold prepare, bind.
  destruct (validating s) as [rv sv] eqn:Hv.
  apply validating_frame in Hv as (_ & _ & Htv).
  destruct rv as [v|e|];
    [|intros [= <- <-]; exists []; by rewrite app_nil_r, Htv..].
  destruct (getSchemaRecord sv) as [rr sr] eqn:Hr.
  apply getSchemaRecord_frame in Hr as (_ & _ & reads & Htr & Hreads).
  rewrite Htv in Htr.
  destruct rr as [record|e|]; [|intros [= <- <-]; by exists reads..].
  intros Hres. apply resolving_frame in Hres as [rs ->]. by exists reads.
Qed.

(** X5.  [Run] executes nothing unless the whole of steps 1 to 5 has
    succeeded.  When one of them fails (the list, the methods, the
    files, the record, an item that does not resolve), [Run] returns
    that outcome, and its only calls are those that read the record:
    no handler has been executed and no version or dirty flag has been
    written. *)
Theorem failed_preparation_executes_nothing s (r : result unit) s' :
  prepare s = (r, s') →
  r ≠ Ok tt →
  Run s = (r, s') ∧
  ∃ reads, trace s' = trace s ++ reads ∧ Forall readEvent reads ∧ execsOf reads = [].
Proof.
  intros Hprep Hfail. split.
  - rewrite Run_phases. unfold bind. rewrite Hprep.
    destruct r as [[]|e|]; done.
  - destruct (prepare_trace _ _ _ Hprep) as (reads & Htr & Hreads).
    exists reads. split; [done|]. split; [done|].
    clear Htr. induction Hreads as [|ev reads Hev _ IH]; [done|].
    destruct Hev as [-> | [-> | ->]]; done.
Qed.

Lemma buildHandler_refused (methodMap : gmap string (method FS))
    (fileNameMap : gset string) (i : Z) (item : string) (e : error) s :
  refusal methodMap fileNameMap item = Some e →
  buildHandler methodMap fileNameMap i item s = (Err e, s).
Proof.
  unfold refusal, buildHandler, bind at 1, getEng.
  destruct (decide (Ext item = sqlFileExt)).
  - destruct (decide (item ∈ fileNameMap)); [discriminate|]. by intros [= <-].
  - destruct (decide (Ext item = funcExt)); [|by intros [= <-]].
    destruct (methodMap !! item) as [mt|]; [|by intros [= <-]].
    intros ->. reflexivity.
Qed.

Lemma buildHandlers_app (methodMap : gmap string (method FS)) (fileNameMap : gset string)
    (items1 items2 : list string) :
  ∀ (i : Z) s,
    buildHandlers methodMap fileNameMap i (items1 ++ items2) s
    = (buildHandlers methodMap fileNameMap i items1 ;;
       buildHandlers methodMap fileNameMap (i + Z.of_nat (length items1)) items2) s.
Proof.
  induction items1 as [|item items1 IH]; intros i s.
  - cbn. unfold bind, ret. by rewrite Z.add_0_r.
  - cbn [app buildHandlers length]. unfold bind in *.
    destruct (buildHandler _ _ _ _ s) as [[[]|e|] s1]; [|done..].
    rewrite IH. replace (i + 1 + Z.of_nat (length items1))
      with (i + Z.of_nat (S (length items1))) by lia. done.
Qed.

Lemma buildHandlers_resolved (methodMap : gmap string (method FS))
    (fileNameMap : gset string) (items : list string) :
  ∀ (i : Z) s,
    (∀ item, item ∈ items →
       resolvable (eng s) (fs (world s)) methodMap fileNameMap item) →
    ∃ rs, buildHandlers methodMap fileNameMap i items s = (Ok tt, appended rs s) ∧
          map GetIndex rs = ordinalsFrom i (length items).
Proof.
  induction items as [|item items IH]; intros i s Hres.
  - exists []. by rewrite appended_nil.
  - destruct (buildHandler_resolvable _ _ i _ _ (Hres item ltac:(by left)))
      as (h & Hb & Hidx & _).
    destruct (IH (i + 1) (appended [h] s)) as (rs & Hbs & Hidxs).
    { intros item' Hin. apply resolvable_appended. apply Hres. by right. }
    exists (h :: rs). cbn [buildHandlers]. unfold bind. rewrite Hb, Hbs.
    rewrite appended_app. cbn [app map length ordinalsFrom].
    by rewrite Hidx, Hidxs.
Qed.

(** X6.  Let the record be clean and within the list, and let the
    items after the stored version resolve up to an item that step 5
    turns down.  Then [Run] returns the error of that item.  The
    handlers of the items before it have been appended to
    [m.handlers] and stay there, but none of them is executed: the
    final state is the one after the read, with those handlers
    added. *)
Theorem unresolved_item_stops_run s (items : list string)
    (methodMap : gmap string (method FS)) (fileNameMap : gset string) s1 (r : schema) s2
    (pre : list string) (item : string) (rest : list string) (e : error) :
  validating s = (Ok (items, methodMap, fileNameMap), s1) →
  getSchemaRecord s1 = (Ok r, s2) →
  dirty r = false →
  0 ≤ version r ≤ Z.of_nat (length items) →
  drop (Z.to_nat (version r)) items = pre ++ item :: rest →
  (∀ x, x ∈ pre → resolvable (eng s2) (fs (world s2)) methodMap fileNameMap x) →
  refusal methodMap fileNameMap item = Some e →
  ∃ rs, Run s = (Err e, appended rs s2) ∧
        map GetIndex rs = ordinalsFrom (version r) (length pre).
Proof.
  intros Hv Hr Hclean Hrange Hdrop Hres Hrefuse.
  rewrite (Run_after_read _ _ _ _ _ Hv Hr). cbn [fst snd].
  unfold resolving. rewrite Hclean.
  destruct (Z.ltb_spec (Z.of_nat (length items)) (version r)); [lia|].
  destruct (Z.ltb_spec (version r) 0); [lia|].
  rewrite Hdrop.
  destruct (buildHandlers_resolved methodMap fileNameMap pre (version r) s2 Hres)
    as (rs & Hb & Hidx).
  exists rs. split; [|done].
  unfold bind at 1. rewrite buildHandlers_app. unfold bind at 1. rewrite Hb.
  cbn [buildHandlers]. unfold bind at 1.
  rewrite (buildHandler_refused _ _ _ _ e) by done. reflexivity.
Qed.

(** ** The signature of a procedure *)

(** X7.  [checkMethodFormat] accepts a method exactly when its value
    is a function with the one parameter [context.Context] and the one
    result [error]. *)
Theorem checkMethodFormat_accepts (mh : method FS) :
  checkMethodFormat mh = None ↔
  Kind (mt_value mh) = Func ∧ TypeIn (mt_value mh) = [ContextType]
  ∧ TypeOut (mt_value mh) = [ErrorType].
Proof.
  unfold checkMethodFormat. destruct mh as [name [k ins outs call]]. cbn.
  destruct (decide (k ≠ Func)) as [Hk|Hk].
  { split; [discriminate|]. intros (-> & _). done. }
  destruct k; [|exfalso; apply Hk; discriminate].
  destruct ins as [|i [|i' ins]]; destruct outs as [|o [|o' outs]]; cbn;
    try (destruct (decide _) as [?|Hn]; [|exfalso; apply Hn; auto];
         split; [discriminate | intros (_ & ? & ?); discriminate]).
  destruct (decide (1%nat ≠ 1%nat ∨ 1%nat ≠ 1%nat)) as [[?|?]|_]; [done..|].
  destruct (decide (Some i ≠ Some ContextType ∨ Some o ≠ Some ErrorType)) as [Hbad|Hgood].
  - split; [discriminate|]. intros (_ & [= ->] & [= ->]). destruct Hbad; done.
  - split; [|done]. intros _. split; [done|].
    destruct i; try (exfalso; apply Hgood; left; discriminate).
    destruct o; try (exfalso; apply Hgood; right; discriminate).
    done.
Qed.

(** ** The SQL handler *)

(** X8.  Whatever the driver answers, [sqlHandler.Exec] calls the
    driver at most three times and commits its statement at most once:
    the committed statements are afterwards what they were, or what
    they were followed by the statement of the handler, the latter
    only when [Exec] returns nil for a statement that is not empty.
    For the empty statement [Exec] returns nil without a call of the
    driver. *)
Theorem sql_step_effect (index : Z) (query : string) w :
  (query = "" → Exec (newSQLHandler index query) w = (None, w)) ∧
  (∃ k : nat, (k ≤ 3)%nat ∧
     script (db (Exec (newSQLHandler index query) w).2) = drop k (script (db w))) ∧
  (applied (db (Exec (newSQLHandler index query) w).2) = applied (db w) ∨
   ((Exec (newSQLHandler index query) w).1 = None ∧ query ≠ "" ∧
    applied (db (Exec (newSQLHandler index query) w).2) = applied (db w) ++ [query])).
Proof.
  cbn [Exec newSQLHandler]. unfold sqlHandler_Exec. cbn [sql_query sql_index].
  destruct (decide (query = "")) as [->|Hq].
  { split; [done|]. split; [|by left]. exists 0%nat. split; [lia|done]. }
  split; [done|].
  destruct w as [f [t a sc]].
  destruct sc as [|[m1|] [|[m2|] [|[m3|] sc]]]; cbn;
    (split;
     [first [ by (exists 0%nat; split; [lia|reflexivity])
            | by (exists 1%nat; split; [lia|reflexivity])
            | by (exists 2%nat; split; [lia|reflexivity])
            | by (exists 3%nat; split; [lia|reflexivity]) ]
     | auto ]).
Qed.

(** X9.  When the transaction begins and the statement fails, [Exec]
    calls the driver once more (the rollback, whose result it drops)
    and returns the query error with the text of the cause and the
    index of the handler; nothing is committed.  When the transaction
    does not begin, the error of the driver is returned and the driver
    is not called again. *)
Theorem sql_statement_error (index : Z) (query : string) w (msg : string)
    (rest : list (option string)) :
  query ≠ "" →
  (script (db w) = None :: Some msg :: rest →
     Exec (newSQLHandler index query) w
     = (Some (ErrQueryWithIndex msg index), withDB (withScript (tail rest) (db w)) w)) ∧
  (script (db w) = Some msg :: rest →
     Exec (newSQLHandler index query) w
     = (Some (ErrExternal msg), withDB (withScript rest (db w)) w)).
Proof.
  intros Hq. cbn [Exec newSQLHandler]. unfold sqlHandler_Exec. cbn [sql_query sql_index].
  destruct (decide (query = "")); [done|].
  destruct w as [f [t a sc]]. cbn [db script].
  split; intros ->; [destruct rest as [|o rest]|]; reflexivity.
Qed.

(** ** The record *)

(** X10.  Reading the record is safe to repeat: a second read that
    follows a successful read returns the same record with the two
    calls of a plain read, and leaves the rows of the table as the
    first read left them. *)
Theorem record_read_twice s (r r' : schema) s1 s2 :
  getSchemaRecord s = (Ok r, s1) →
  getSchemaRecord s1 = (Ok r', s2) →
  r' = r ∧
  table (db (world s2)) = table (db (world s1)) ∧
  trace s2 = trace s1 ++ [EvCreateTable; EvQueryRecord].
Proof.
  intros H1 H2.
  apply getSchemaRecord_ok in H1 as (Hst & _ & _).
  apply getSchemaRecord_ok in H2 as (_ & Hsome & _).
  destruct (Hsome r Hst) as (-> & Htab & _ & Htr). done.
Qed.

(** X11.  On a store that answers, [getSchemaRecord] creates what is
    missing: without a table or without a row it inserts the row
    [{0, false}] and returns that record, and the table then holds this
    one row; with a row it returns the first row and writes nothing. *)
Theorem record_get_or_create s :
  reliable (db (world s)) →
  ∃ s', getSchemaRecord s = (Ok (recordRead (db (world s))), s') ∧
        match stored (db (world s)) with
        | Some r0 =>
            recordRead (db (world s)) = r0 ∧
            table (db (world s')) = table (db (world s)) ∧
            trace s' = trace s ++ [EvCreateTable; EvQueryRecord]
        | None =>
            recordRead (db (world s)) = mkSchema 0 false ∧
            table (db (world s')) = Some [mkSchema 0 false] ∧
            trace s' = trace s ++ [EvCreateTable; EvQueryRecord; EvInsertDefault]
        end.
Proof.
  intros Hrel.
  destruct (getSchemaRecord_reliable _ Hrel) as (s' & Hr & _ & _ & Htr & Htab & _).
  exists s'. split; [done|].
  unfold recordRead, recordReads, rowsRead, stored in *.
  destruct (table (db (world s))) as [[|r0 rows]|]; done.
Qed.

(** ** Updates of the record that fail *)

Lemma execUpdate_failed (f : schema → schema) (d d' : DB) (e : error) :
  execUpdate f d = (Some e, d') → table d' = table d ∧ applied d' = applied d.
Proof.
  unfold execUpdate. pose proof (driver_frame d) as [Ht Ha].
  destruct (driver d) as [[msg|] d1]; cbn [snd] in Ht, Ha.
  - by intros [= _ <-].
  - destruct (table d1) eqn:Ht1; [discriminate|]. intros [= _ <-].
    by rewrite Ht1.
Qed.

(** X12.  When a handler fails and the dirty update fails as well,
    [Run] returns the error of the update, not that of the handler,
    and the rows of the table are what the handler left: the failure
    of the step is not recorded. *)
Theorem failed_dirty_update_hides_step_error s s0 (pre post : list (Handler FS)) h s1
    (e inner : error) w1 (d : DB) :
  prepare s = (Ok tt, s0) →
  handlers (eng s0) = pre ++ h :: post →
  runHandlers pre s0 = (Ok tt, s1) →
  Exec h (world s1) = (Some e, w1) →
  execUpdateDirty (GetIndex h) true (db w1) = (Some inner, d) →
  ∃ s2, Run s = (Err inner, s2) ∧
        world s2 = withDB d w1 ∧
        table (db (world s2)) = table (db w1).
Proof.
  intros Hprep Hchain Hpre Hexec Hup.
  rewrite Run_phases. unfold bind at 1. rewrite Hprep.
  unfold run, bind at 1, getEng. rewrite Hchain, runHandlers_app.
  unfold bind. rewrite Hpre.
  rewrite (runHandlers_step_fail _ _ _ _ _ Hexec), Hup.
  eexists. split; [reflexivity|]. cbn. split; [done|].
  by apply execUpdate_failed in Hup as [-> _].
Qed.

(** X13.  When a handler succeeds and the update of the version fails,
    [Run] returns the error of the update and executes no further
    handler.  What the handler did stays, and the rows of the table
    are what the handler left: the step is applied but not
    recorded. *)
Theorem failed_version_update_stops_run s s0 (pre post : list (Handler FS)) h s1
    (e : error) w1 (d : DB) :
  prepare s = (Ok tt, s0) →
  handlers (eng s0) = pre ++ h :: post →
  runHandlers pre s0 = (Ok tt, s1) →
  Exec h (world s1) = (None, w1) →
  execUpdateSchema (GetIndex h) (db w1) = (Some e, d) →
  ∃ s2, Run s = (Err e, s2) ∧
        world s2 = withDB d w1 ∧
        table (db (world s2)) = table (db w1) ∧
        trace s2 = trace s0 ++ flat_map stepEvents (pre ++ [h]).
Proof.
  intros Hprep Hchain Hpre Hexec Hup.
  rewrite Run_phases. unfold bind at 1. rewrite Hprep.
  unfold run, bind at 1, getEng. rewrite Hchain, runHandlers_app.
  unfold bind. rewrite Hpre.
  rewrite (runHandlers_step_ok _ _ _ _ Hexec), Hup.
  apply runHandlers_ok_trace in Hpre as [Htr _].
  eexists. split; [reflexivity|]. cbn [world trace db withDB].
  split; [done|]. split.
  - by apply execUpdate_failed in Hup as [-> _].
  - rewrite Htr, flat_map_app, <- app_assoc. reflexivity.
Qed.

(** ** Runs that resume, and runs that cannot start *)


(** X15.  A clean record with a negative version makes [Run] panic:
    the loop of step 5 starts at a negative position of the list.  The
    panic comes after the read; no handler has been built or
    executed. *)
Theorem negative_version_panics s (items : list string)
    (methodMap : gmap string (method FS)) (fileNameMap : gset string) s1 (r : schema) s2 :
  validating s = (Ok (items, methodMap, fileNameMap), s1) →
  getSchemaRecord s1 = (Ok r, s2) →
  dirty r = false →
  version r < 0 →
  Run s = (Panic, s2).
Proof.
  intros Hv Hr Hclean Hneg.
  rewrite (Run_after_read _ _ _ _ _ Hv Hr). cbn [fst snd].
  unfold resolving, bind. rewrite Hclean.
  destruct (Z.ltb_spec (Z.of_nat (length items)) (version r)); [lia|].
  destruct (Z.ltb_spec (version r) 0); [done|lia].
Qed.

(** ** What a run does to the chain *)

Lemma runHandlers_prefix (hs : list (Handler FS)) :
  ∀ s (r : result unit) s',
    runHandlers hs s = (r, s') →
    eng s' = eng s ∧
    ∃ (k : nat) evs,
      (k ≤ length hs)%nat ∧
      trace s' = trace s ++ evs ∧
      execsOf evs = map GetIndex (take k hs) ∧
      (r = Ok tt → k = length hs) ∧
      runHandlers (take k hs) s = (r, s') ∧
      (r ≠ Ok tt →
       (0 < k)%nat ∧ ∃ s1, runHandlers (take (k - 1) hs) s = (Ok tt, s1)).
Proof.
  induction hs as [|h hs IH]; intros s r s' Hrun.
  - cbn in Hrun. injection Hrun as <- <-. split; [done|].
    exists 0%nat, []. rewrite app_nil_r. repeat split; done.
  - destruct (Exec h (world s)) as [[e|] w1] eqn:Hexec.
    + assert (Hone : runHandlers [h] s = (r, s')).
      { rewrite <- Hrun. by rewrite !(runHandlers_step_fail _ _ _ _ _ Hexec). }
      rewrite (runHandlers_step_fail _ _ _ _ _ Hexec) in Hrun.
      destruct (execUpdateDirty _ _ _) as [inner d]. injection Hrun as <- <-.
      split; [done|]. exists 1%nat, [EvExec (GetIndex h); EvUpdateDirty (GetIndex h)].
      cbn [length take map execsOf trace].
      split; [lia|]. split; [done|]. split; [done|].
      split; [by destruct inner|]. split; [done|].
      intros _. split; [lia|]. by exists s.
    + assert (Hstep := runHandlers_step_ok h).
      destruct (execUpdateSchema (GetIndex h) (db w1)) as [[e|] d] eqn:Hupd.
      * assert (Hone : runHandlers [h] s = (r, s')).
        { rewrite <- Hrun. rewrite !(Hstep _ _ _ Hexec), Hupd. done. }
        rewrite (Hstep _ _ _ Hexec), Hupd in Hrun.
        injection Hrun as <- <-. split; [done|]. exists 1%nat, (stepEvents h).
        cbn [length take map execsOf trace stepEvents].
        split; [lia|]. split; [done|]. split; [done|].
        split; [done|]. split; [done|].
        intros _. split; [lia|]. by exists s.
      * rewrite (Hstep _ _ _ Hexec), Hupd in Hrun.
        apply IH in Hrun as (Heng & k & evs & Hk & Htr & Hex & Hall & Hpre & Hbefore).
        split; [done|]. exists (S k), (stepEvents h ++ evs).
        cbn [trace] in Htr. cbn [length take map].
        split; [lia|]. split; [by rewrite Htr, <- app_assoc|].
        split; [cbn; by rewrite Hex|]. split; [intros Hok; by rewrite Hall|].
        split; [by rewrite (Hstep _ _ _ Hexec), Hupd|].
        intros Hr. destruct (Hbefore Hr) as (Hpos & s1 & Hs1).
        split; [lia|]. exists s1.
        replace (S k - 1)%nat with (S (k - 1)) by lia. cbn [take].
        by rewrite (Hstep _ _ _ Hexec), Hupd.
Qed.

Lemma withHandlers_same (m : migrate FS) : withHandlers (handlers m ++ []) m = m.
Proof. destruct m. unfold withHandlers. cbn. by rewrite app_nil_r. Qed.

Lemma prepare_eng s (r : result unit) s1 :
  prepare s = (r, s1) →
  ∃ rs, eng s1 = withHandlers (handlers (eng s) ++ rs) (eng s).
Proof.
  unfold prepare, bind.
  destruct (validating s) as [rv sv] eqn:Hv.
  apply validating_frame in Hv as (Hev & _ & _).
  destruct rv as [v|e|];
    [|intros [= <- <-]; exists []; by rewrite withHandlers_same, Hev..].
  destruct (getSchemaRecord sv) as [rr sr] eqn:Hr.
  apply getSchemaRecord_frame in Hr as (Her & _ & _).
  destruct rr as [record|e|];
    [|intros [= <- <-]; exists []; by rewrite withHandlers_same, Her, Hev..].
  intros Hres. apply resolving_frame in Hres as [rs ->].
  exists rs. cbn. by rewrite Her, Hev.
Qed.

(** X20.  [Run] never removes a handler and never changes the
    configuration: whatever its outcome, the engine afterwards is the
    engine before with handlers appended to [m.handlers]. *)
Theorem Run_only_appends_handlers s (r : result unit) s' :
  Run s = (r, s') →
  ∃ rs, eng s' = withHandlers (handlers (eng s) ++ rs) (eng s).
Proof.
  rewrite Run_phases. unfold bind.
  destruct (prepare s) as [rp s0] eqn:Hprep.
  apply prepare_eng in Hprep as [rs Hrs]. intros Hrun. exists rs.
  destruct rp as [[]|e|]; [|by injection Hrun as <- <-..].
  unfold run, bind, getEng in Hrun.
  apply runHandlers_prefix in Hrun as [-> _]. done.
Qed.

(** X18.  Whatever [Run] returns, it is the execution of an initial
    part of [m.handlers] as the run leaves it.  When steps 1 to 5 do
    not succeed the part is empty.  Otherwise the outcome and the
    final state of [Run] are those of the loop of [run] over the first
    [k] handlers alone, started in the state after step 5: these
    handlers are executed in the order of the chain, each of them
    once, all but the last one successfully when [Run] fails, and no
    handler behind them is executed.  The trace has the [k] calls of
    [Exec] in that order, and [k] is the whole chain when [Run]
    returns nil. *)
Theorem Run_executes_prefix_in_order s (r : result unit) s' :
  Run s = (r, s') →
  ∃ (k : nat) evs s0,
    (k ≤ length (handlers (eng s')))%nat ∧
    trace s' = trace s ++ evs ∧
    execsOf evs = map GetIndex (take k (handlers (eng s'))) ∧
    (r = Ok tt → k = length (handlers (eng s'))) ∧
    eng s0 = eng s' ∧
    ((prepare s = (r, s0) ∧ r ≠ Ok tt ∧ k = 0%nat ∧ s' = s0) ∨
     (prepare s = (Ok tt, s0) ∧
      runHandlers (take k (handlers (eng s'))) s0 = (r, s') ∧
      (r ≠ Ok tt →
       (0 < k)%nat ∧
       ∃ s1, runHandlers (take (k - 1) (handlers (eng s'))) s0 = (Ok tt, s1)))).
Proof.
  rewrite Run_phases. unfold bind.
  destruct (prepare s) as [rp s0] eqn:Hprep.
  destruct (prepare_trace _ _ _ Hprep) as (reads & Htr0 & Hreads).
  assert (Hnone : execsOf reads = []).
  { clear Htr0. induction Hreads as [|ev reads Hev _ IH]; [done|].
    destruct Hev as [-> | [-> | ->]]; done. }
  assert (Happ : ∀ evs1 evs2, execsOf (evs1 ++ evs2) = execsOf evs1 ++ execsOf evs2).
  { intros evs1 evs2. induction evs1 as [|[] evs1 IH]; cbn; by rewrite ?IH. }
  destruct rp as [[]|e|].
  - unfold run, bind, getEng. intros Hrun.
    apply runHandlers_prefix in Hrun
      as (Heng & k & evs & Hk & Htr & Hex & Hall & Hpre & Hbefore).
    rewrite Heng. exists k, (reads ++ evs), s0.
    split; [done|]. split; [by rewrite Htr, Htr0, <- app_assoc|].
    split; [by rewrite Happ, Hnone|]. split; [done|]. split; [done|].
    right. done.
  - intros [= <- <-]. exists 0%nat, reads, s0.
    split; [lia|]. split; [done|]. split; [by rewrite Hnone|].
    split; [discriminate|]. split; [done|]. left. done.
  - intros [= <- <-]. exists 0%nat, reads, s0.
    split; [lia|]. split; [done|]. split; [by rewrite Hnone|].
    split; [discriminate|]. split; [done|]. left. done.
Qed.

Lemma getSchemaItems_created s (e : error) (fs1 fs2 : FS) :
  os_Open (schemaFileName (eng s)) (fs (world s)) = Err e →
  isNotExist e = true →
  os_MkdirAll (path_Dir (schemaFileName (eng s))) (fs (world s)) = (None, fs1) →
  os_Create (schemaFileName (eng s)) fs1 = (None, fs2) →
  getSchemaItems s = (Ok [], withWorld (withFS fs2 (world s)) s).
Proof.
  intros Hopen Hne Hmk Hcr.
  unfold getSchemaItems, bind at 1, getEng, bind at 1, getFS.
  fold (schemaFileName (eng s)). rewrite Hopen, Hne.
  unfold bind, callFS. rewrite Hmk. cbn. rewrite Hcr. cbn.
  destruct s as [m [f d] tr]. reflexivity.
Qed.

(** X19.  The first run in a directory without a list file.  New
    engine, a store on which nothing is recorded and that answers, a
    list file that does not exist and can be created, a directory
    that can then be listed: [Run] creates the file, reads the record
    (creating the table and the row [{0, false}] if they are missing),
    finds nothing to resolve or to execute, and returns nil. *)
Theorem first_run_creates_list_file s (e : error) (fs1 fs2 : FS)
    (methodMap : gmap string (method FS)) (entries : list DirEntry)
    (fileNameMap : gset string) :
  handlers (eng s) = [] →
  os_Open (schemaFileName (eng s)) (fs (world s)) = Err e →
  isNotExist e = true →
  os_MkdirAll (path_Dir (schemaFileName (eng s))) (fs (world s)) = (None, fs1) →
  os_Create (schemaFileName (eng s)) fs1 = (None, fs2) →
  addObjects (applyObjects (eng s)) ∅ = Ok methodMap →
  os_ReadDir (schemaDir (eng s)) fs2 = Ok entries →
  addFileNames entries ∅ = Ok fileNameMap →
  (∀ name, name ∈ fileNameMap → methodMap !! name = None) →
  freshStore (db (world s)) →
  reliable (db (world s)) →
  ∃ s', Run s = (Ok tt, s') ∧
        fs (world s') = fs2 ∧
        trace s' = trace s ++ recordReads (db (world s)) ∧
        table (db (world s')) = Some [mkSchema 0 false] ∧
        handlers (eng s') = [].
Proof.
  intros Hnew Hopen Hne Hmk Hcr Hmm Hdir Hfm Hsame Hfresh Hrel.
  set (sa := withWorld (withFS fs2 (world s)) s).
  assert (Hv : validating s = (Ok ([], methodMap, fileNameMap), sa)).
  { unfold validating, bind at 1.
    rewrite (getSchemaItems_created _ _ _ _ Hopen Hne Hmk Hcr). fold sa.
    unfold bind at 1, getMethods, bind at 1, getEng, liftResult.
    change (eng sa) with (eng s). rewrite Hmm.
    unfold bind at 1, getFileNames, bind at 1, getEng, bind at 1, getFS.
    change (eng sa) with (eng s). change (fs (world sa)) with fs2.
    rewrite Hdir, Hfm. unfold liftResult.
    unfold bind. rewrite checkSameAsFunc_ok; [done|].
    intros name Hin. apply Hsame. by apply elem_of_elements. }
  assert (Hrela : reliable (db (world sa))) by done.
  destruct (getSchemaRecord_reliable _ Hrela) as (s1 & Hr & He1 & Hf1 & Ht1 & Hrows1 & _).
  change (db (world sa)) with (db (world s)) in Hr, Ht1, Hrows1.
  destruct (freshStore_read _ Hfresh) as [Hrec Hrows].
  rewrite Hrec in Hr. rewrite Hrows in Hrows1.
  assert (Hhs : handlers (eng s1) = []) by (rewrite He1; exact Hnew).
  exists s1. split; [|done].
  rewrite (Run_after_read _ _ _ _ _ Hv Hr). cbn [fst snd].
  unfold resolving, bind. cbn [dirty version length].
  change (Z.of_nat 0 <? 0) with false. change (0 <? 0) with false.
  change (drop (Z.to_nat 0) []) with (@nil string). cbn [buildHandlers]. unfold ret.
  unfold run, bind, getEng. rewrite Hhs. reflexivity.
Qed.

(** X21.  An SQL item that the directory lists but whose file cannot
    be opened or read stops [Run] in step 5 with the error of
    [os.Open] or of [io.ReadAll].  As for an item that is turned down,
    the handlers of the items before it have been appended and none is
    executed. *)
Theorem unreadable_sql_file_stops_run s (items : list string)
    (methodMap : gmap string (method FS)) (fileNameMap : gset string) s1 (r : schema) s2
    (pre : list string) (item : string) (rest : list string) (e : error) :
  validating s = (Ok (items, methodMap, fileNameMap), s1) →
  getSchemaRecord s1 = (Ok r, s2) →
  dirty r = false →
  0 ≤ version r ≤ Z.of_nat (length items) →
  drop (Z.to_nat (version r)) items = pre ++ item :: rest →
  (∀ x, x ∈ pre → resolvable (eng s2) (fs (world s2)) methodMap fileNameMap x) →
  Ext item = sqlFileExt →
  item ∈ fileNameMap →
  (os_Open (fileJoin (schemaDir (eng s2)) item) (fs (world s2)) = Err e ∨
   ∃ data, os_Open (fileJoin (schemaDir (eng s2)) item) (fs (world s2))
           = Ok (mkFile data (Some e))) →
  ∃ rs, Run s = (Err e, appended rs s2) ∧
        map GetIndex rs = ordinalsFrom (version r) (length pre).
Proof.
  intros Hv Hr Hclean Hrange Hdrop Hres Hext Hin Hopen.
  rewrite (Run_after_read _ _ _ _ _ Hv Hr). cbn [fst snd].
  unfold resolving. rewrite Hclean.
  destruct (Z.ltb_spec (Z.of_nat (length items)) (version r)); [lia|].
  destruct (Z.ltb_spec (version r) 0); [lia|].
  rewrite Hdrop.
  destruct (buildHandlers_resolved methodMap fileNameMap pre (version r) s2 Hres)
    as (rs & Hb & Hidx).
  exists rs. split; [|done].
  unfold bind at 1. rewrite buildHandlers_app. unfold bind at 1. rewrite Hb.
  cbn [buildHandlers]. unfold bind at 1.
  assert (Hbuild : buildHandler methodMap fileNameMap
                     (version r + Z.of_nat (length pre)) item (appended rs s2)
                   = (Err e, appended rs s2)).
  { unfold buildHandler, bind at 1, getEng.
    destruct (decide (Ext item = sqlFileExt)); [|done].
    destruct (decide (item ∈ fileNameMap)); [|done].
    unfold bind at 1, getFileContent, bind at 1, getFS, bind at 1, liftResult.
    change (schemaDir (eng (appended rs s2))) with (schemaDir (eng s2)).
    change (fs (world (appended rs s2))) with (fs (world s2)).
    destruct Hopen as [-> | [data ->]]; reflexivity. }
  rewrite Hbuild. reflexivity.
Qed.

(** ** The length of a line *)

(** X23.  The list that [getSchemaItems] parses is made of the lines
    of the file that the scanner delivers.  Lines without a newline in
    them and shorter than [MaxScanTokenSize] are all delivered, without
    a carriage return at their end.  A line of [MaxScanTokenSize] bytes
    or more ends the list without an error, since [scanner.Err] is not
    read: the result is that of the lines before it, whatever stands
    behind it. *)
Theorem long_line_ends_list s (file : File) (pre : list string) :
  os_Open (schemaFileName (eng s)) (fs (world s)) = Ok file →
  Forall shortLine pre →
  (f_data file = lines pre →
   getSchemaItems s = (parseItems (map dropCR pre), s)) ∧
  (∀ long rest,
     f_data file = lines pre +:+ long +:+ rest →
     noNewline long = true →
     MaxScanTokenSize ≤ Z.of_nat (String.length long) →
     getSchemaItems s = (parseItems (map dropCR pre), s)).
Proof.
  intros Hopen Hpre. rewrite (getSchemaItems_open _ _ Hopen). split.
  - intros ->. rewrite <- (append_empty_r (lines pre)), ScanLines_lines by done.
    by rewrite app_nil_r.
  - intros long rest -> Hnl Hlen. rewrite ScanLines_lines by done.
    unfold ScanLines at 1. rewrite scanLinesFrom_long; [by rewrite app_nil_r|done|done|done].
Qed.

(** ** The options *)

(** X22.  Without options the list file is [./migrations/migrate.txt].
    Options are applied in the order given: a later [WithSchemaDir]
    replaces an earlier one, options for different fields can be given
    in either order, and after [WithSchemaDir d] and [WithSchemaFile f]
    the list file is [d/f]. *)
Theorem options_set_the_names (options : list (@MigrateOption FS)) (d d' f : string) :
  schemaFileName (NewMigrate (FS := FS) []) = "./migrations/migrate.txt" ∧
  NewMigrate (options ++ [WithSchemaDir d'; WithSchemaDir d])
  = NewMigrate (options ++ [WithSchemaDir d]) ∧
  NewMigrate (options ++ [WithSchemaDir d; WithSchemaFile f])
  = NewMigrate (options ++ [WithSchemaFile f; WithSchemaDir d]) ∧
  schemaFileName (NewMigrate (options ++ [WithSchemaDir d; WithSchemaFile f]))
  = d +:+ "/" +:+ f.
Proof.
  unfold NewMigrate. rewrite !fold_left_app. repeat split; reflexivity.
Qed.

End Further.

(** * The engine on the demo directory *)





(** [TestNewMigrateFunc] of the package: two registered objects that
    both have a method [Run]. *)
Example two_objects_with_one_method_name :
  (Run (snd (ApplyObjects [Obj [mkMethod "Run" okProc]; Obj [mkMethod "Run" okProc]]
               (bareState (demoFS demoItems))))).1
  = Err (errFuncNameIsDuplicate "Run").
Proof. vm_compute. reflexivity. Qed.


(** C2, as the code behaves.  The engine is run a second time on the
    same directory, with the same list: the second run does not
    execute zero steps.  It executes the three steps again, rewrites
    the version to 1, 2 and 3, and applies the two statements a second
    time. *)
Theorem second_run_executes_steps_again :
  let s1 := (Run (demoState demoItems okProc None [])).2 in
  let s2 := (Run s1).2 in
  (Run (demoState demoItems okProc None [])).1 = Ok tt ∧
  table (db (world s1)) = Some [mkSchema 3 false] ∧
  applied (db (world s1)) = [createSQL; indexSQL] ∧
  (Run s1).1 = Ok tt ∧
  trace s2 = trace s1 ++ [EvCreateTable; EvQueryRecord;
                          EvExec 1; EvUpdateVersion 1; EvExec 2; EvUpdateVersion 2;
                          EvExec 3; EvUpdateVersion 3] ∧
  applied (db (world s2)) = [createSQL; indexSQL; createSQL; indexSQL].
Proof. vm_compute. repeat split; reflexivity. Qed.

(** The same when the server refuses to create the table a second
    time (the sixteenth call of the driver): the second run leaves the
    record [{1, true}] where the first had left [{3, false}]. *)
Lemma second_run_can_mark_dirty :
  let s0 := demoState demoItems okProc None (replicate 15 None ++ [Some alreadyExists]) in
  let s1 := (Run s0).2 in
  let s2 := (Run s1).2 in
  (Run s0).1 = Ok tt ∧
  table (db (world s1)) = Some [mkSchema 3 false] ∧
  (Run s1).1 = Err (ErrQueryWithIndex alreadyExists 1) ∧
  trace s2 = trace s1 ++ [EvCreateTable; EvQueryRecord; EvExec 1; EvUpdateDirty 1] ∧
  table (db (world s2)) = Some [mkSchema 1 true].
Proof. vm_compute. repeat split; reflexivity. Qed.

(** The scenario of the spec in which [Seed], the second step, fails. *)
Lemma first_failure_on_demo :
  let s := demoState demoItems badProc None [] in
  let s0 := (prepare s).2 in
  let s1 := (runHandlers [newSQLHandler 1 createSQL] s0).2 in
  ∃ (r : result unit) s2,
    Run s = (r, s2) ∧
    trace s2 = [EvCreateTable; EvQueryRecord; EvInsertDefault;
                EvExec 1; EvUpdateVersion 1; EvExec 2; EvUpdateDirty 2] ∧
    (∀ d, execUpdateDirty 2 true (db (world s1)) = (None, d) →
       r = Err seedFailed ∧ world s2 = withDB d (world s1) ∧
       ∃ rows, table (db (world s1)) = Some rows ∧
               table d = Some (map (λ _, mkSchema 2 true) rows)) ∧
    (handlers (eng s) = [] →
       ∃ r0, stored (db (world s0)) = Some r0 ∧ 2 = version r0 + 1 + 1).
Proof.
  intros s s0 s1.
  apply (first_failure_marks_dirty s s0
           [newSQLHandler 1 createSQL] [newSQLHandler 3 indexSQL]
           (newGoHandler 2 badProc) s1 seedFailed (world s1)).
  - vm_compute. reflexivity.
  - reflexivity.
  - reflexivity.
  - reflexivity.
Defined.

(** The run after the failed one finds the dirty record. *)
Lemma dirty_record_on_demo :
  Run failedState = (Err (errFindDirtyIndex 2), (getSchemaRecord failedState).2) ∧
  trace (getSchemaRecord failedState).2
  = trace failedState ++ [EvCreateTable; EvQueryRecord] ∧
  stored (db (world failedState)) = Some (mkSchema 2 true) ∧
  table (db (world (getSchemaRecord failedState).2)) = table (db (world failedState)) ∧
  applied (db (world (getSchemaRecord failedState).2)) = applied (db (world failedState)) ∧
  handlers (eng (getSchemaRecord failedState).2) = handlers (eng failedState).
Proof.
  apply (dirty_record_stops_run failedState
           (demoItems, demoMethods badProc, demoFileNames) failedState
           (mkSchema 2 true) (getSchemaRecord failedState).2).
  - vm_compute. reflexivity.
  - vm_compute. reflexivity.
  - reflexivity.
Defined.

(** A record ahead of the list, and a record level with it. *)
Lemma version_against_item_count_on_demo :
  Run (demoState demoItems okProc (Some [mkSchema 5 false]) [])
  = (Err (errSchemaVersionLargeRecord 5),
     (getSchemaRecord (demoState demoItems okProc (Some [mkSchema 5 false]) [])).2)
  ∧ Run (demoState demoItems okProc (Some [mkSchema 3 false]) [])
    = (Ok tt, (getSchemaRecord (demoState demoItems okProc (Some [mkSchema 3 false]) [])).2).
Proof.
  split.
  - apply (version_against_item_count
             (demoState demoItems okProc (Some [mkSchema 5 false]) [])
             demoItems (demoMethods okProc) demoFileNames
             (demoState demoItems okProc (Some [mkSchema 5 false]) [])
             (mkSchema 5 false)
             (getSchemaRecord (demoState demoItems okProc (Some [mkSchema 5 false]) [])).2).
    + vm_compute. reflexivity.
    + vm_compute. reflexivity.
    + cbn. lia.
  - apply (version_against_item_count
             (demoState demoItems okProc (Some [mkSchema 3 false]) [])
             demoItems (demoMethods okProc) demoFileNames
             (demoState demoItems okProc (Some [mkSchema 3 false]) [])
             (mkSchema 3 false)
             (getSchemaRecord (demoState demoItems okProc (Some [mkSchema 3 false]) [])).2).
    + vm_compute. reflexivity.
    + vm_compute. reflexivity.
    + reflexivity.
    + reflexivity.
    + reflexivity.
Defined.

(** Against C6 as it is stated: two lists with a blank line that do
    not end in the empty-record error of that line.  A blank second line that is the last line:
    the list is accepted, and the run executes its one step.  A blank
    third line behind a repeated line: the error is the duplicate
    error. *)
Lemma blank_line_not_always_rejected :
  (ScanLines (lines ["Seed"; ""]) !! 1%nat = Some "" ∧
   (getSchemaItems (demoState ["Seed"; ""] okProc None [])).1 = Ok ["Seed"] ∧
   (Run (demoState ["Seed"; ""] okProc None [])).1 = Ok tt ∧
   trace (Run (demoState ["Seed"; ""] okProc None [])).2
   = [EvCreateTable; EvQueryRecord; EvInsertDefault; EvExec 1; EvUpdateVersion 1]) ∧
  (ScanLines (lines ["Seed"; "Seed"; ""; "1_create.sql"]) !! 2%nat = Some "" ∧
   (Run (demoState ["Seed"; "Seed"; ""; "1_create.sql"] okProc None [])).1
   = Err (errSchemaItemIsDuplicate "Seed")).
Proof. vm_compute. repeat split; reflexivity. Qed.

(** A blank second line followed by another line. *)
Lemma blank_line_on_demo :
  Run (demoState ["1_create.sql"; ""; "Seed"] okProc None [])
  = (Err (errSchemaRecordIsEmpty 2), demoState ["1_create.sql"; ""; "Seed"] okProc None []).
Proof.
  apply (blank_line_rejected (demoState ["1_create.sql"; ""; "Seed"] okProc None [])
           (mkFile (lines ["1_create.sql"; ""; "Seed"]) None) ["1_create.sql"] "Seed" []).
  - reflexivity.
  - reflexivity.
  - apply NoDup_singleton.
  - set_solver.
Defined.

(** Against C7 as it is stated: a repeated line behind a blank first
    line; the error is the empty-record error of line 1, not the
    duplicate error. *)
Lemma blank_line_hides_duplicate :
  ScanLines (lines [""; "1_create.sql"; "1_create.sql"]) = [""; "1_create.sql"; "1_create.sql"] ∧
  (Run (demoState [""; "1_create.sql"; "1_create.sql"] okProc None [])).1
  = Err (errSchemaRecordIsEmpty 1).
Proof. vm_compute. split; reflexivity. Qed.

(** The scenario of the spec: two lines both equal to [1_create.sql]. *)
Lemma repeated_item_on_demo :
  ∃ pre y rest,
    ["1_create.sql"; "1_create.sql"] = pre ++ y :: rest ∧ NoDup pre ∧ ("" ∉ pre) ∧
    ((y ∈ pre ∧
      Run (demoState ["1_create.sql"; "1_create.sql"] okProc None [])
      = (Err (errSchemaItemIsDuplicate y),
         demoState ["1_create.sql"; "1_create.sql"] okProc None [])) ∨
     (y = "" ∧
      Run (demoState ["1_create.sql"; "1_create.sql"] okProc None [])
      = (Err (errSchemaRecordIsEmpty (Z.of_nat (length pre) + 1)),
         demoState ["1_create.sql"; "1_create.sql"] okProc None []))).
Proof.
  apply (repeated_item_rejected (demoState ["1_create.sql"; "1_create.sql"] okProc None [])
           (mkFile (lines ["1_create.sql"; "1_create.sql"]) None)
           ["1_create.sql"; "1_create.sql"] "1_create.sql").
  - reflexivity.
  - reflexivity.
  - split; [discriminate|]. exists 0%nat, 1%nat. split; [lia|]. split; reflexivity.
Defined.

Lemma duplicate_error_on_demo :
  Run (demoState ["1_create.sql"; "1_create.sql"] okProc None [])
  = (Err (errSchemaItemIsDuplicate "1_create.sql"),
     demoState ["1_create.sql"; "1_create.sql"] okProc None []).
Proof. vm_compute. reflexivity. Qed.

(** A directory without a list file, and a list file that may not be
    opened. *)
Lemma missing_list_file_on_demo :
  getSchemaItems (bareState emptyFS)
  = (Ok [], bareState (MemFS.mk [("./migrations/migrate.txt", "")]
                                [("./migrations", [])] []))
  ∧ getSchemaItems (bareState lockedFS) = (Err MemFS.permission, bareState lockedFS).
Proof.
  split.
  - destruct (missing_list_file_is_created (bareState emptyFS)
                (ErrNotExist "./migrations/migrate.txt")) as [Hcreate _];
      [reflexivity|].
    apply (Hcreate eq_refl (MemFS.mk [] [("./migrations", [])] [])); reflexivity.
  - destruct (missing_list_file_is_created (bareState lockedFS) MemFS.permission)
      as [_ Hother]; [reflexivity|].
    apply (Hother eq_refl).
Defined.

(** A commit that fails on the first step of a store at version 0. *)
Lemma failed_commit_on_demo :
  ∃ w1,
    Exec (newSQLHandler 1 createSQL)
      (world (demoState demoItems okProc (Some [mkSchema 0 false])
                [None; None; Some "commit failed"])) = (None, w1) ∧
    applied (db w1) = [] ∧
    table (db w1) = Some [mkSchema 0 false] ∧
    script (db w1) = [] ∧
    ∀ d, execUpdateSchema 1 (db w1) = (None, d) →
      runHandlers [newSQLHandler 1 createSQL]
        (demoState demoItems okProc (Some [mkSchema 0 false])
           [None; None; Some "commit failed"])
      = (Ok tt, mkState (eng (demoState demoItems okProc (Some [mkSchema 0 false])
                                [None; None; Some "commit failed"]))
                  (withDB d w1) [EvExec 1; EvUpdateVersion 1]) ∧
      ∃ rows, Some [mkSchema 0 false] = Some rows ∧
              table d = Some (map (λ r, mkSchema 1 (dirty r)) rows).
Proof.
  apply (failed_commit_counts_as_success 1 createSQL
           (demoState demoItems okProc (Some [mkSchema 0 false])
              [None; None; Some "commit failed"]) "commit failed" []).
  - discriminate.
  - reflexivity.
Defined.

(** A handler with index 7 added before the run of the demo
    directory: it is executed before the three steps of the list and
    the version becomes 7. *)
Lemma added_handler_on_demo :
  let s := appended [customHandler] (demoState demoItems okProc None []) in
  let s1 := (prepare s).2 in
  ∃ rs,
    handlers (eng s1) = customHandler :: rs ∧
    Run s = (runHandlers [customHandler] ;; runHandlers rs)%go s1 ∧
    runHandlers [customHandler] s1
    = (Ok tt, mkState (eng s1)
                (withDB (mkDB (Some [mkSchema 7 false]) [] []) (world s1))
                (trace s1 ++ [EvExec 7; EvUpdateVersion 7])).
Proof.
  intros s s1.
  destruct (added_handlers_run_first (demoState demoItems okProc None [])
              [customHandler] s s1) as (rs & Hrs & Hrun & Hstep);
    [reflexivity | reflexivity | vm_compute; reflexivity |].
  exists rs. split; [exact Hrs|]. split; [exact Hrun|].
  destruct (Hstep [] [] customHandler s1 (world s1)
              (mkDB (Some [mkSchema 7 false]) [] [])) as [Hseven _];
    [reflexivity | reflexivity | reflexivity | vm_compute; reflexivity |].
  exact Hseven.
Defined.

(** * The rest of the package on the demo directory *)

Lemma duplicate_method_on_demo :
  ∃ pre name post,
    map mt_name (concat [[mkMethod "Run" okProc]; [mkMethod "Run" okProc]])
    = pre ++ name :: post ∧ NoDup pre ∧ name ∈ pre ∧
    Run duplicateMethodState = (Err (errFuncNameIsDuplicate name), duplicateMethodState).
Proof.
  apply (duplicate_method_stops_run duplicateMethodState
           (mkFile (lines demoItems) None) demoItems
           [[mkMethod "Run" okProc]; [mkMethod "Run" okProc]] []).
  - reflexivity.
  - vm_compute. reflexivity.
  - reflexivity.
  - change (¬ NoDup ["Run"; "Run"]). intros Hnd.
    apply NoDup_cons in Hnd as [Hn _]. apply Hn. by left.
Defined.

Lemma getFileNames_on_demo :
  ∃ fm, getFileNames (bareState nestedFS) = (Ok fm, bareState nestedFS) ∧
        ∀ name, name ∈ fm ↔ name ∈ fileNamesOf nestedEntries.
Proof.
  apply (getFileNames_lists_files (bareState nestedFS) nestedEntries).
  - reflexivity.
  - change (NoDup ["1_create.sql"; "migrate.txt"]).
    repeat (apply NoDup_cons; split; [set_solver|]). apply NoDup_nil_2.
Defined.

Lemma file_named_like_method_on_demo :
  ∃ name', name' ∈ ({["migrate.txt"]} ∪ ({["Seed"]} ∪ ({["1_create.sql"]} ∪ ∅)) : gset string) ∧
           is_Some (demoMethods okProc !! name') ∧
           Run clashState = (Err (errFileIsSameAsFunc name'), clashState).
Proof.
  apply (file_named_like_method_stops_run clashState demoItems (demoMethods okProc)
           clashEntries _ "Seed").
  - exists (mkFile (lines demoItems) None).
    split; [reflexivity|]. split; [reflexivity|]. split.
    + unfold demoItems. repeat (apply NoDup_cons; split; [set_solver|]). apply NoDup_nil_2.
    + unfold demoItems. set_solver.
  - vm_compute. reflexivity.
  - reflexivity.
  - vm_compute. reflexivity.
  - set_solver.
  - exists (mkMethod "Seed" okProc). vm_compute. reflexivity.
Defined.

Lemma failed_preparation_on_demo :
  Run mongoState = (Err (errFileTypeNotSupported "2.mongodb"), (prepare mongoState).2) ∧
  ∃ reads,
    trace (prepare mongoState).2 = trace mongoState ++ reads ∧
    Forall readEvent reads ∧ execsOf reads = [].
Proof.
  apply (failed_preparation_executes_nothing mongoState).
  - vm_compute. reflexivity.
  - discriminate.
Defined.

Lemma unresolved_item_on_demo :
  ∃ rs, Run mongoState
        = (Err (errFileTypeNotSupported "2.mongodb"),
           appended rs (getSchemaRecord mongoState).2) ∧
        map GetIndex rs = [1].
Proof.
  apply (unresolved_item_stops_run mongoState
           mongoItems (demoMethods okProc) demoFileNames
           mongoState (mkSchema 0 false) (getSchemaRecord mongoState).2
           ["1_create.sql"] "2.mongodb" []).
  - vm_compute. reflexivity.
  - vm_compute. reflexivity.
  - reflexivity.
  - cbn. lia.
  - reflexivity.
  - intros x Hx. apply list_elem_of_singleton in Hx as ->.
    left. split; [reflexivity|]. split; [unfold demoFileNames; set_solver|].
    exists createSQL. reflexivity.
  - vm_compute. reflexivity.
Defined.

Lemma sql_statement_error_on_demo :
  Exec (newSQLHandler 1 createSQL)
    (mkWorld (demoFS demoItems) (mkDB None [] [None; Some "syntax error"; Some "gone"]))
  = (Some (ErrQueryWithIndex "syntax error" 1),
     mkWorld (demoFS demoItems) (mkDB None [] []))
  ∧ Exec (newSQLHandler 1 createSQL)
      (mkWorld (demoFS demoItems) (mkDB None [] [Some "gone"; None]))
    = (Some (ErrExternal "gone"), mkWorld (demoFS demoItems) (mkDB None [] [None])).
Proof.
  split.
  - apply (sql_statement_error 1 createSQL
             (mkWorld (demoFS demoItems) (mkDB None [] [None; Some "syntax error"; Some "gone"]))
             "syntax error" [Some "gone"]); [discriminate | reflexivity].
  - apply (sql_statement_error 1 createSQL
             (mkWorld (demoFS demoItems) (mkDB None [] [Some "gone"; None]))
             "gone" [None]); [discriminate | reflexivity].
Defined.

Lemma record_read_twice_on_demo :
  mkSchema 0 false = mkSchema 0 false ∧
  table (db (world (getSchemaRecord
                      (getSchemaRecord (demoState demoItems okProc None [])).2).2))
  = table (db (world (getSchemaRecord (demoState demoItems okProc None [])).2)) ∧
  trace (getSchemaRecord (getSchemaRecord (demoState demoItems okProc None [])).2).2
  = trace (getSchemaRecord (demoState demoItems okProc None [])).2
      ++ [EvCreateTable; EvQueryRecord].
Proof.
  apply (record_read_twice (demoState demoItems okProc None [])
           (mkSchema 0 false) (mkSchema 0 false)
           (getSchemaRecord (demoState demoItems okProc None [])).2
           (getSchemaRecord (getSchemaRecord (demoState demoItems okProc None [])).2).2).
  - vm_compute. reflexivity.
  - vm_compute. reflexivity.
Defined.

Lemma record_get_or_create_on_demo :
  ∃ s', getSchemaRecord (demoState demoItems okProc None [])
        = (Ok (mkSchema 0 false), s') ∧
        mkSchema 0 false = mkSchema 0 false ∧
        table (db (world s')) = Some [mkSchema 0 false] ∧
        trace s' = [EvCreateTable; EvQueryRecord; EvInsertDefault].
Proof.
  apply (record_get_or_create (demoState demoItems okProc None [])).
  apply Forall_nil_2.
Defined.

Lemma failed_dirty_update_on_demo :
  ∃ s2, Run lostAtDirty = (Err (ErrExternal connectionLost), s2) ∧
        world s2 = withDB (execUpdateDirty 2 true
                             (db (world (runHandlers [newSQLHandler 1 createSQL]
                                           (prepare lostAtDirty).2).2))).2
                     (world (runHandlers [newSQLHandler 1 createSQL]
                               (prepare lostAtDirty).2).2) ∧
        table (db (world s2)) = Some [mkSchema 1 false].
Proof.
  destruct (failed_dirty_update_hides_step_error lostAtDirty (prepare lostAtDirty).2
           [newSQLHandler 1 createSQL]
           [newSQLHandler 3 indexSQL]
           (newGoHandler 2 badProc)
           (runHandlers [newSQLHandler 1 createSQL] (prepare lostAtDirty).2).2
           seedFailed (ErrExternal connectionLost)
           (world (runHandlers [newSQLHandler 1 createSQL] (prepare lostAtDirty).2).2)
           (execUpdateDirty 2 true
              (db (world (runHandlers [newSQLHandler 1 createSQL]
                            (prepare lostAtDirty).2).2))).2)
    as (s2 & Hrun & Hw & Ht).
  - vm_compute. reflexivity.
  - vm_compute. reflexivity.
  - vm_compute. reflexivity.
  - vm_compute. reflexivity.
  - vm_compute. reflexivity.
  - exists s2. split; [exact Hrun|]. split; [exact Hw|].
    rewrite Ht. vm_compute. reflexivity.
Defined.

Lemma failed_version_update_on_demo :
  ∃ s2, Run lostAtVersion = (Err (ErrExternal connectionLost), s2) ∧
        world s2 = withDB (execUpdateSchema 1
                             (db (Exec (newSQLHandler 1 createSQL)
                                    (world (prepare lostAtVersion).2)).2)).2
                     (Exec (newSQLHandler 1 createSQL) (world (prepare lostAtVersion).2)).2 ∧
        table (db (world s2)) = Some [mkSchema 0 false] ∧
        trace s2 = [EvCreateTable; EvQueryRecord; EvInsertDefault; EvExec 1; EvUpdateVersion 1].
Proof.
  destruct (failed_version_update_stops_run lostAtVersion (prepare lostAtVersion).2
           []
           [newGoHandler 2 okProc; newSQLHandler 3 indexSQL]
           (newSQLHandler 1 createSQL)
           (prepare lostAtVersion).2
           (ErrExternal connectionLost)
           (Exec (newSQLHandler 1 createSQL) (world (prepare lostAtVersion).2)).2
           (execUpdateSchema 1
              (db (Exec (newSQLHandler 1 createSQL)
                     (world (prepare lostAtVersion).2)).2)).2)
    as (s2 & Hrun & Hw & Ht & Htr).
  - vm_compute. reflexivity.
  - vm_compute. reflexivity.
  - reflexivity.
  - vm_compute. reflexivity.
  - vm_compute. reflexivity.
  - exists s2. split; [exact Hrun|]. split; [exact Hw|]. split.
    + rewrite Ht. vm_compute. reflexivity.
    + rewrite Htr. vm_compute. reflexivity.
Defined.


Lemma negative_version_on_demo :
  Run (demoState demoItems okProc (Some [mkSchema (-1) false]) [])
  = (Panic, (getSchemaRecord (demoState demoItems okProc (Some [mkSchema (-1) false]) [])).2).
Proof.
  apply (negative_version_panics
           (demoState demoItems okProc (Some [mkSchema (-1) false]) [])
           demoItems (demoMethods okProc) demoFileNames
           (demoState demoItems okProc (Some [mkSchema (-1) false]) [])
           (mkSchema (-1) false)).
  - vm_compute. reflexivity.
  - vm_compute. reflexivity.
  - reflexivity.
  - cbn. lia.
Defined.

Lemma Run_only_appends_on_demo :
  ∃ rs, eng failedState
        = withHandlers (handlers (eng (demoState demoItems badProc None [])) ++ rs)
            (eng (demoState demoItems badProc None [])).
Proof.
  apply (Run_only_appends_handlers (demoState demoItems badProc None [])
           (Err seedFailed) failedState).
  vm_compute. reflexivity.
Defined.

Lemma Run_executes_prefix_on_demo :
  ∃ (k : nat) evs s0,
    (k ≤ length (handlers (eng failedState)))%nat ∧
    trace failedState = trace (demoState demoItems badProc None []) ++ evs ∧
    execsOf evs = map GetIndex (take k (handlers (eng failedState))) ∧
    (Err seedFailed = Ok tt → k = length (handlers (eng failedState))) ∧
    eng s0 = eng failedState ∧
    ((prepare (demoState demoItems badProc None []) = (Err seedFailed, s0) ∧
      Err seedFailed ≠ Ok tt ∧ k = 0%nat ∧ failedState = s0) ∨
     (prepare (demoState demoItems badProc None []) = (Ok tt, s0) ∧
      runHandlers (take k (handlers (eng failedState))) s0
      = (Err seedFailed, failedState) ∧
      (Err seedFailed ≠ Ok tt →
       (0 < k)%nat ∧
       ∃ s1, runHandlers (take (k - 1) (handlers (eng failedState))) s0 = (Ok tt, s1)))).
Proof.
  apply (Run_executes_prefix_in_order (demoState demoItems badProc None [])
           (Err seedFailed) failedState).
  vm_compute. reflexivity.
Defined.

Lemma first_run_on_empty_directory :
  ∃ s', Run (bareState emptyFS) = (Ok tt, s') ∧
        fs (world s') = MemFS.mk [("./migrations/migrate.txt", "")]
                                 [("./migrations", [])] [] ∧
        trace s' = [EvCreateTable; EvQueryRecord; EvInsertDefault] ∧
        table (db (world s')) = Some [mkSchema 0 false] ∧
        handlers (eng s') = [].
Proof.
  apply (first_run_creates_list_file (bareState emptyFS)
           (ErrNotExist "./migrations/migrate.txt")
           (MemFS.mk [] [("./migrations", [])] [])
           (MemFS.mk [("./migrations/migrate.txt", "")] [("./migrations", [])] [])
           ∅ [] ∅).
  - reflexivity.
  - reflexivity.
  - reflexivity.
  - reflexivity.
  - reflexivity.
  - reflexivity.
  - reflexivity.
  - reflexivity.
  - intros name _. apply lookup_empty.
  - vm_compute. tauto.
  - apply Forall_nil_2.
Defined.

Lemma unreadable_sql_file_on_demo :
  ∃ rs, Run unreadableState
        = (Err MemFS.permission, appended rs (getSchemaRecord unreadableState).2) ∧
        map GetIndex rs = [1; 2].
Proof.
  apply (unreadable_sql_file_stops_run unreadableState
           demoItems (demoMethods okProc) demoFileNames
           unreadableState (mkSchema 0 false) (getSchemaRecord unreadableState).2
           ["1_create.sql"; "Seed"] "2_index.sql" []).
  - vm_compute. reflexivity.
  - vm_compute. reflexivity.
  - reflexivity.
  - cbn. lia.
  - reflexivity.
  - intros x Hx. apply elem_of_cons in Hx as [-> | Hx].
    + left. split; [reflexivity|]. split; [unfold demoFileNames; set_solver|].
      exists createSQL. reflexivity.
    + apply list_elem_of_singleton in Hx as ->.
      right. split; [reflexivity|]. exists (mkMethod "Seed" okProc).
      split; vm_compute; reflexivity.
  - reflexivity.
  - unfold demoFileNames. set_solver.
  - left. reflexivity.
Defined.

Lemma noNewline_repeatChar (n : nat) (c : ascii) :
  c ≠ newline → noNewline (repeatChar n c) = true.
Proof.
  intros Hc. induction n as [|n IH]; [done|].
  cbn [repeatChar noNewline]. rewrite IH.
  by destruct (Ascii.eqb_spec c newline).
Qed.

Lemma length_repeatChar (n : nat) (c : ascii) : String.length (repeatChar n c) = n.
Proof. induction n as [|n IH]; [done|]. cbn. by rewrite IH. Qed.

(** The line [Seed], a line of 65536 bytes, a blank line and a last
    line: the list is the one line [Seed]. *)
Lemma long_line_on_demo :
  getSchemaItems longLineState = (Ok ["Seed"], longLineState).
Proof.
  destruct (long_line_ends_list longLineState
              (mkFile (lines ["Seed"] +:+ longLine +:+ longLineAfter) None) ["Seed"])
    as [_ Hlong].
  - reflexivity.
  - apply Forall_cons. split; [|apply Forall_nil_2].
    split; [reflexivity|]. unfold MaxScanTokenSize. cbn. lia.
  - apply (Hlong longLine longLineAfter).
    + reflexivity.
    + by apply noNewline_repeatChar.
    + unfold longLine. rewrite length_repeatChar, Z2Nat.id; [lia|done].
Defined.
